(** * Breakout detection: [detectBreakout]

    A shallow embedding of the detector ([utils/technical]) and of the
    two record types it works on ([types/chart]).  A TypeScript [number]
    is an IEEE 754 binary64 value, modelled by Rocq's primitive [float]
    (same format, same round-to-nearest-even multiplication, same
    comparisons, NaN, infinities and signed zeros included).  The lookback
    [period] is taken to be an integer ([Z]); the detector is never called
    with a fractional one.

    The parts of the JavaScript runtime the function relies on
    ([Array.prototype.slice], indexing, [Math.max], [Math.min], the
    [TypeError] of a property read on [undefined]) are in [Module JS].

    The detector is given twice: as a function on the contents of its
    input ([detectBreakout]), and on a store of arrays
    ([detectBreakout_run]), where what a call allocates and writes can
    be told. *)

From Stdlib Require Import ZArith List Bool Lia Floats Sorted.
Import ListNotations.

Open Scope Z_scope.

(* ================================================================== *)
(** ** The JavaScript runtime used by the detector                      *)
(* ================================================================== *)

Module JS.

(** *** Completions: a call returns a value or throws *)

Inductive Exception : Type :=
| TypeError.   (* "Cannot read properties of undefined" *)

Inductive Completion (A : Type) : Type :=
| Return (a : A)
| Throw (e : Exception).
Arguments Return {A} a.
Arguments Throw {A} e.

Definition bind {A B} (c : Completion A) (k : A -> Completion B) : Completion B :=
  match c with
  | Return a => k a
  | Throw e => Throw e
  end.

Notation "x <- c ;; k" := (bind c (fun x => k))
  (at level 61, c at next level, right associativity).

(** [for (let i = start; i < bound; i++) body]: the body runs
    [max 0 (bound - start)] times, on [start], [start + 1], ..., threading
    the loop state; an exception leaves the loop at once.  [trips] is the
    number of iterations that remain. *)
Fixpoint for_loop {S} (trips : nat) (i : Z) (body : Z -> S -> Completion S) (s : S)
  : Completion S :=
  match trips with
  | O => Return s
  | Datatypes.S trips' => s' <- body i s ;; for_loop trips' (i + 1) body s'
  end.

Definition for_lt {S} (start bound : Z) (body : Z -> S -> Completion S) (s : S)
  : Completion S :=
  for_loop (Z.to_nat (bound - start)) start body s.

(** *** Arrays *)

(** [arr.length] *)
Definition length {A} (arr : list A) : Z := Z.of_nat (List.length arr).

(** [arr[i]]: [undefined] ([None]) outside [0 .. length - 1]. *)
Definition get {A} (arr : list A) (i : Z) : option A :=
  if i <? 0 then None else nth_error arr (Z.to_nat i).

(** Reading a property of [arr[i]]: a [TypeError] when it is [undefined]. *)
Definition deref {A} (v : option A) : Completion A :=
  match v with
  | Some a => Return a
  | None => Throw TypeError
  end.

(** [arr.slice(start, end)]: a negative argument counts from the end of
    the array, both are clamped to [0 .. length], and the result is empty
    when the clamped end is not beyond the clamped start. *)
Definition relative_index (len i : Z) : Z :=
  if i <? 0 then Z.max (len + i) 0 else Z.min i len.

Definition slice {A} (arr : list A) (start end_ : Z) : list A :=
  let len := length arr in
  let k := relative_index len start in
  let final := relative_index len end_ in
  firstn (Z.to_nat (final - k)) (skipn (Z.to_nat k) arr).

(** *** Numbers *)

Definition number := float.
Bind Scope float_scope with number.

(** [a > b] and [a < b] on numbers; both are false when a side is NaN. *)
Definition gt (a b : number) : bool := (b <? a)%float.
Definition lt (a b : number) : bool := (a <? b)%float.

(** [Math.max(...values)]: starts from [-Infinity]; NaN if any value is
    NaN; [+0] counts as larger than [-0]. *)
Fixpoint Math_max_from (highest : number) (values : list number) : number :=
  match values with
  | [] => highest
  | n :: rest =>
      if is_nan n then nan
      else
        let highest :=
          if Leibniz.eqb n zero && Leibniz.eqb highest neg_zero then zero else highest in
        let highest := if gt n highest then n else highest in
        Math_max_from highest rest
  end.

Definition Math_max (values : list number) : number :=
  Math_max_from neg_infinity values.

(** [Math.min(...values)]: starts from [+Infinity]; NaN if any value is
    NaN; [-0] counts as smaller than [+0]. *)
Fixpoint Math_min_from (lowest : number) (values : list number) : number :=
  match values with
  | [] => lowest
  | n :: rest =>
      if is_nan n then nan
      else
        let lowest :=
          if Leibniz.eqb n neg_zero && Leibniz.eqb lowest zero then neg_zero else lowest in
        let lowest := if lt n lowest then n else lowest in
        Math_min_from lowest rest
  end.

Definition Math_min (values : list number) : number :=
  Math_min_from infinity values.

End JS.

Import JS.

(* ================================================================== *)
(** ** [src/types/chart.ts]                                             *)
(* ================================================================== *)

(** [interface KlineData] *)
Module KlineData.
Record t : Type := mk {
  time : number;    (* Unix timestamp in seconds *)
  open : number;
  high : number;
  close : number;
  low : number;
  volume : number
}.
End KlineData.

(** [type: 'support' | 'resistance'] *)
Inductive SignalType : Type := Support | Resistance.

(** [interface BreakoutSignal] *)
Module BreakoutSignal.
Record t : Type := mk {
  time : number;
  type : SignalType;
  price : number;
  confirmed : bool
}.
End BreakoutSignal.

(* ================================================================== *)
(** ** [src/utils/technical.ts]                                         *)
(* ================================================================== *)

(** The two literals of the source, as the binary64 values a JavaScript
    parser rounds them to. *)
Definition c1_002 : number := 0x1.0083126e978d5p+0%float.   (* 1.002 *)
Definition c0_998 : number := 0x1.fef9db22d0e56p-1%float.   (* 0.998 *)

(** The default of the [period] parameter. *)
Definition default_period : Z := 20.

(** The body of the [for] loop at index [i], with [signals] the array
    built so far.  Nothing before the first use of [currentCandle.close]
    can throw or has an effect, so the [TypeError] of an [undefined]
    [currentCandle] is raised once the two levels are computed. *)
Definition scan_step (candles : list KlineData.t) (period : Z) (i : Z)
    (signals : list BreakoutSignal.t) : Completion (list BreakoutSignal.t) :=
  let windowCandles := slice candles (i - period) i in
  let currentCandle := get candles i in
  let highs := map KlineData.high windowCandles in
  let lows := map KlineData.low windowCandles in
  let resistance := Math_max highs in
  let support := Math_min lows in
  currentCandle <- deref currentCandle ;;
  let signals :=
    if gt (KlineData.close currentCandle) (resistance * c1_002)%float then
      signals ++
      [ {| BreakoutSignal.time := KlineData.time currentCandle;
           BreakoutSignal.type := Resistance;
           BreakoutSignal.price := KlineData.close currentCandle;
           BreakoutSignal.confirmed :=
             gt (KlineData.close currentCandle) resistance &&
             gt (KlineData.open currentCandle) resistance |} ]
    else signals in
  let signals :=
    if lt (KlineData.close currentCandle) (support * c0_998)%float then
      signals ++
      [ {| BreakoutSignal.time := KlineData.time currentCandle;
           BreakoutSignal.type := Support;
           BreakoutSignal.price := KlineData.close currentCandle;
           BreakoutSignal.confirmed :=
             lt (KlineData.close currentCandle) support &&
             lt (KlineData.open currentCandle) support |} ]
    else signals in
  Return signals.

Definition detectBreakout (candles : list KlineData.t) (period : Z)
    : Completion (list BreakoutSignal.t) :=
  let signals := [] in
  if length candles <? period then Return signals
  else for_lt period (length candles) (scan_step candles period) signals.

(** A call without the second argument. *)
Definition detectBreakout_default (candles : list KlineData.t)
    : Completion (list BreakoutSignal.t) :=
  detectBreakout candles default_period.

(* ================================================================== *)
(** ** The detector on a store of arrays *)
(* ================================================================== *)

(** The same function with its arrays in a store, to see what a call
    reads, allocates and writes.  An array is an object of the store,
    reached through its address; [slice] and [map] allocate a new array,
    [push] writes the array it is applied to.  Candles and signals are
    only created and read by the detector, never assigned to, so they are
    kept as values inside the arrays. *)

Inductive Object : Type :=
| CandleArray (elements : list KlineData.t)
| NumberArray (elements : list number)
| SignalArray (elements : list BreakoutSignal.t).

Definition Store : Type := list Object.
Definition Ref : Type := nat.

(** A computation on the store: a completion and the store it leaves. *)
Definition Run (A : Type) : Type := Store -> Completion A * Store.

Definition unit_run {A} (a : A) : Run A := fun store => (Return a, store).

Definition throw_run {A} (e : Exception) : Run A := fun store => (Throw e, store).

Definition bind_run {A B} (c : Run A) (k : A -> Run B) : Run B :=
  fun store =>
    match c store with
    | (Return a, store') => k a store'
    | (Throw e, store') => (Throw e, store')
    end.

Notation "x <~ c ;; k" := (bind_run c (fun x => k))
  (at level 61, c at next level, right associativity).

(** A new array, at the first free address. *)
Definition alloc (o : Object) : Run Ref :=
  fun store => (Return (List.length store), store ++ [o]).

Definition read (r : Ref) : Run Object :=
  fun store =>
    match nth_error store r with
    | Some o => (Return o, store)
    | None => (Throw TypeError, store)
    end.

Definition write (r : Ref) (o : Object) : Run unit :=
  fun store => (Return tt, firstn r store ++ o :: skipn (S r) store).

Definition candles_at (r : Ref) : Run (list KlineData.t) :=
  o <~ read r ;;
  match o with CandleArray l => unit_run l | _ => throw_run TypeError end.

Definition numbers_at (r : Ref) : Run (list number) :=
  o <~ read r ;;
  match o with NumberArray l => unit_run l | _ => throw_run TypeError end.

Definition signals_at (r : Ref) : Run (list BreakoutSignal.t) :=
  o <~ read r ;;
  match o with SignalArray l => unit_run l | _ => throw_run TypeError end.

(** [arr.length], [arr[i]], [arr.slice(start, end)], [arr.map(f)],
    [Math.max(...arr)], [Math.min(...arr)] and [arr.push(s)]. *)
Definition length_at (arr : Ref) : Run Z :=
  l <~ candles_at arr ;; unit_run (length l).

Definition get_at (arr : Ref) (i : Z) : Run (option KlineData.t) :=
  l <~ candles_at arr ;; unit_run (get l i).

Definition slice_at (arr : Ref) (start end_ : Z) : Run Ref :=
  l <~ candles_at arr ;; alloc (CandleArray (slice l start end_)).

Definition map_at (f : KlineData.t -> number) (arr : Ref) : Run Ref :=
  l <~ candles_at arr ;; alloc (NumberArray (map f l)).

Definition Math_max_at (arr : Ref) : Run number :=
  l <~ numbers_at arr ;; unit_run (Math_max l).

Definition Math_min_at (arr : Ref) : Run number :=
  l <~ numbers_at arr ;; unit_run (Math_min l).

Definition push_at (arr : Ref) (s : BreakoutSignal.t) : Run unit :=
  l <~ signals_at arr ;; write arr (SignalArray (l ++ [s])).

Definition deref_run {A} (v : option A) : Run A :=
  match v with
  | Some a => unit_run a
  | None => throw_run TypeError
  end.

(** [for (let i = start; cond; i++) body]: the condition is evaluated
    before every turn, on the store of that moment.  [fuel] bounds the
    number of times it is evaluated; the loop ends with [None] when the
    fuel is used up, with [Some tt] when the condition is false. *)
Fixpoint for_run (fuel : nat) (i : Z) (cond : Z -> Run bool) (body : Z -> Run unit)
  : Run (option unit) :=
  match fuel with
  | O => unit_run None
  | S fuel' =>
      continue <~ cond i ;;
      if continue : bool then _ <~ body i ;; for_run fuel' (i + 1) cond body
      else unit_run (Some tt)
  end.

(** The body of the loop, on the arrays [candles] and [signals]. *)
Definition scan_step_run (candles : Ref) (period : Z) (signals : Ref) (i : Z) : Run unit :=
  windowCandles <~ slice_at candles (i - period) i ;;
  currentCandle <~ get_at candles i ;;
  highs <~ map_at KlineData.high windowCandles ;;
  lows <~ map_at KlineData.low windowCandles ;;
  resistance <~ Math_max_at highs ;;
  support <~ Math_min_at lows ;;
  currentCandle <~ deref_run currentCandle ;;
  _ <~ (if gt (KlineData.close currentCandle) (resistance * c1_002)%float then
          push_at signals
            {| BreakoutSignal.time := KlineData.time currentCandle;
               BreakoutSignal.type := Resistance;
               BreakoutSignal.price := KlineData.close currentCandle;
               BreakoutSignal.confirmed :=
                 gt (KlineData.close currentCandle) resistance &&
                 gt (KlineData.open currentCandle) resistance |}
        else unit_run tt) ;;
  if lt (KlineData.close currentCandle) (support * c0_998)%float then
    push_at signals
      {| BreakoutSignal.time := KlineData.time currentCandle;
         BreakoutSignal.type := Support;
         BreakoutSignal.price := KlineData.close currentCandle;
         BreakoutSignal.confirmed :=
           lt (KlineData.close currentCandle) support &&
           lt (KlineData.open currentCandle) support |}
  else unit_run tt.

(** A call: the address of the array it returns ([None] when the fuel
    of the loop is used up). *)
Definition detectBreakout_run (fuel : nat) (candles : Ref) (period : Z) : Run (option Ref) :=
  signals <~ alloc (SignalArray []) ;;
  len <~ length_at candles ;;
  if len <? period then unit_run (Some signals)
  else
    finished <~ for_run fuel period
                  (fun i => len <~ length_at candles ;; unit_run (i <? len))
                  (scan_step_run candles period signals) ;;
    match finished with
    | Some _ => unit_run (Some signals)
    | None => unit_run None
    end.

(* ================================================================== *)
(** ** Reasoning about the loop *)
(* ================================================================== *)

(** The levels the loop body computes at index [i]. *)
Definition resistance_at (candles : list KlineData.t) (period i : Z) : number :=
  Math_max (map KlineData.high (slice candles (i - period) i)).

Definition support_at (candles : list KlineData.t) (period i : Z) : number :=
  Math_min (map KlineData.low (slice candles (i - period) i)).

(** The signals the loop body pushes at index [i]: what [scan_step] adds
    to an empty array. *)
Definition pushed (candles : list KlineData.t) (period i : Z) : list BreakoutSignal.t :=
  match scan_step candles period i [] with
  | Return signals => signals
  | Throw _ => []
  end.

(** The indices [start], [start + 1], ..., [start + n - 1]. *)
Fixpoint indices (start : Z) (n : nat) : list Z :=
  match n with
  | O => []
  | S n' => start :: indices (start + 1) n'
  end.

Definition resistance_signal (level : number) (c : KlineData.t) : BreakoutSignal.t :=
  {| BreakoutSignal.time := KlineData.time c;
     BreakoutSignal.type := Resistance;
     BreakoutSignal.price := KlineData.close c;
     BreakoutSignal.confirmed :=
       gt (KlineData.close c) level && gt (KlineData.open c) level |}.

Definition support_signal (level : number) (c : KlineData.t) : BreakoutSignal.t :=
  {| BreakoutSignal.time := KlineData.time c;
     BreakoutSignal.type := Support;
     BreakoutSignal.price := KlineData.close c;
     BreakoutSignal.confirmed :=
       lt (KlineData.close c) level && lt (KlineData.open c) level |}.

(* ================================================================== *)
(** ** Vocabulary of the specification *)
(* ================================================================== *)

(** The baseline window of index [i]: the [period] candles at the indices
    [i - period .. i - 1]. *)
Definition baseline (candles : list KlineData.t) (period i : Z) : list KlineData.t :=
  firstn (Z.to_nat period) (skipn (Z.to_nat (i - period)) candles).

(** A signal of direction [ty] is emitted at index [i]. *)
Definition emits_at (candles : list KlineData.t) (period i : Z) (ty : SignalType) : Prop :=
  exists s, In s (pushed candles period i) /\ BreakoutSignal.type s = ty.

(** The output has a signal of direction [ty] stamped with the time [t]. *)
Definition signal_at_time (out : list BreakoutSignal.t) (t : number) (ty : SignalType) : Prop :=
  exists s, In s out /\ BreakoutSignal.time s = t /\ BreakoutSignal.type s = ty.

(** Candle times are unique in the sequence. *)
Definition unique_times (candles : list KlineData.t) : Prop :=
  forall i j ci cj,
    get candles i = Some ci -> get candles j = Some cj ->
    KlineData.time ci = KlineData.time cj -> i = j.

(** [m] is the greatest, or the least, of [values]. *)
Definition greatest (m : number) (values : list number) : Prop :=
  In m values /\ forall v, In v values -> (v <=? m)%float = true.

Definition least (m : number) (values : list number) : Prop :=
  In m values /\ forall v, In v values -> (m <=? v)%float = true.

(** The extremum of a window of values: the greatest (the least) of
    them, and of no value at all [-Infinity] ([+Infinity]). *)
Definition window_maximum (level : number) (values : list number) : Prop :=
  match values with
  | [] => level = neg_infinity
  | _ :: _ => greatest level values
  end.

Definition window_minimum (level : number) (values : list number) : Prop :=
  match values with
  | [] => level = infinity
  | _ :: _ => least level values
  end.

(** The test that emits a signal of direction [ty] on the candle [c]
    after the window [window]. *)
Definition triggers (ty : SignalType) (c : KlineData.t) (window : list KlineData.t) : Prop :=
  match ty with
  | Resistance =>
      gt (KlineData.close c) (Math_max (map KlineData.high window) * c1_002)%float = true
  | Support =>
      lt (KlineData.close c) (Math_min (map KlineData.low window) * c0_998)%float = true
  end.

(** A window that breaks the caller's contract is answered by an
    exception or by the empty result. *)
Definition fails_fast_or_noop (r : Completion (list BreakoutSignal.t)) : Prop :=
  r = Return [] \/ exists e, r = Throw e.

(** Candle times are numbers and strictly increase along the sequence
    (so they are unique). *)
Definition increasing_times (candles : list KlineData.t) : Prop :=
  (forall c, In c candles -> is_nan (KlineData.time c) = false) /\
  (forall i j ci cj,
     get candles i = Some ci -> get candles j = Some cj -> i < j ->
     lt (KlineData.time ci) (KlineData.time cj) = true).

(** [earlier] is in its place before [later]: its time is not greater,
    and when the two times are equal [earlier] is the resistance signal
    and [later] the support signal. *)
Definition in_order (earlier later : BreakoutSignal.t) : Prop :=
  (BreakoutSignal.time earlier <=? BreakoutSignal.time later)%float = true /\
  ((BreakoutSignal.time earlier =? BreakoutSignal.time later)%float = true ->
   BreakoutSignal.type earlier = Resistance /\ BreakoutSignal.type later = Support).

(** No high and no low of the sequence is negative (or NaN). *)
Definition nonnegative_extremes (candles : list KlineData.t) : Prop :=
  forall c, In c candles ->
    (zero <=? KlineData.high c)%float = true /\ (zero <=? KlineData.low c)%float = true.

(** A resistance level is [-Infinity] (empty window) or not negative; a
    support level is [+Infinity] (empty window) or not negative. *)
Definition resistance_like (level : number) : Prop :=
  level = neg_infinity \/ (zero <=? level)%float = true.

Definition support_like (level : number) : Prop :=
  level = infinity \/ (zero <=? level)%float = true.

(** Every candle has [0 <= low <= high]. *)
Definition well_formed (candles : list KlineData.t) : Prop :=
  forall c, In c candles ->
    (zero <=? KlineData.low c)%float = true /\
    (KlineData.low c <=? KlineData.high c)%float = true.

(** Two candles that agree on every field the detector reads. *)
Definition same_prices (a b : KlineData.t) : Prop :=
  KlineData.time a = KlineData.time b /\
  KlineData.open a = KlineData.open b /\
  KlineData.high a = KlineData.high b /\
  KlineData.close a = KlineData.close b /\
  KlineData.low a = KlineData.low b.

(* ------------------------------------------------------------------ *)
(** *** Proof vocabulary *)
(* ------------------------------------------------------------------ *)

(** The second normalisation of [binary_round_aux] and its final case
    analysis, on a rounded mantissa that is positive. *)
Definition round_finish (sx : bool) (m1 e1 : Z) : spec_float :=
  let '(mrs'', e'') := shr_fexp prec emax m1 e1 loc_Exact in
  match shr_m mrs'' with
  | Z0 => S754_zero sx
  | Zpos m => if e'' <=? emax - prec then S754_finite sx m e'' else S754_infinity sx
  | Zneg _ => S754_nan
  end.

(** Case analysis on the comparisons of exponents and mantissas, and
    powers of two taken as atoms, for [lia]. *)
Ltac compare_cases :=
  repeat match goal with
  | H : context [PosDef.Pos.compare_cont Eq ?x ?y] |- _ =>
      change (PosDef.Pos.compare_cont Eq x y) with (Pos.compare x y) in H
  | |- context [PosDef.Pos.compare_cont Eq ?x ?y] =>
      change (PosDef.Pos.compare_cont Eq x y) with (Pos.compare x y)
  end;
  repeat match goal with
  | H : context [Z.compare ?x ?y] |- _ => destruct (Z.compare_spec x y)
  | |- context [Z.compare ?x ?y] => destruct (Z.compare_spec x y)
  | H : context [Pos.compare ?x ?y] |- _ => destruct (Pos.compare_spec x y)
  | |- context [Pos.compare ?x ?y] => destruct (Pos.compare_spec x y)
  end.

Ltac hide_pow :=
  repeat match goal with
  | |- context [2 ^ ?k] => let x := fresh "pw" in set (x := 2 ^ k) in *; clearbody x
  | H : context [2 ^ ?k] |- _ => let x := fresh "pw" in set (x := 2 ^ k) in *; clearbody x
  end.

(* ------------------------------------------------------------------ *)
(** *** Sample data *)
(* ------------------------------------------------------------------ *)

Definition flat (t : Z) : KlineData.t :=
  KlineData.mk (of_uint63 (Uint63.of_Z t)) 95 100 95 90 1.

Definition flat20 : list KlineData.t := map flat (map Z.of_nat (seq 0 20)).

Definition breakout_21 : list KlineData.t :=
  flat20 ++ [KlineData.mk 20 101.5 103 102.5 101 1].

Definition quiet_2 : list KlineData.t :=
  [KlineData.mk 0 95 100 95 90 1; KlineData.mk 1 95 100 95 90 1].

Definition rising_2 : list KlineData.t :=
  [KlineData.mk 0 95 100 95 90 1; KlineData.mk 1 101.5 103 102.5 101 1].

Definition falling_2 : list KlineData.t :=
  [KlineData.mk 0 95 100 95 90 1; KlineData.mk 1 85 86 80 79 1].

(** One candle whose low lies above its high, then a close between them. *)
Definition crossed_2 : list KlineData.t :=
  [KlineData.mk 0 50 1 50 100 1; KlineData.mk 1 50 51 50 49 1].

Definition lone_candle : list KlineData.t := [KlineData.mk 0 95 100 95 90 1].

(* ================================================================== *)
(** * The application around the detector *)
(* ================================================================== *)

From Stdlib Require Import Permutation.
From Stdlib Require String Ascii.
Import String.StringSyntax.
Delimit Scope string_scope with string.

(* ================================================================== *)
(** ** More of the JavaScript runtime                                   *)
(* ================================================================== *)

(** [arr.slice(start)]: the end defaults to the length. *)
Definition slice_from {A} (arr : list A) (start : Z) : list A :=
  slice arr start (length arr).

(** [arr.sort(comparator)] on a fresh array.  The sort is stable, and a
    result [v] of the comparator is read by its sign (NaN as [+0]): the
    first argument goes after the second exactly when [v > 0].  For a
    comparator that is consistent on the elements every conforming
    engine returns the list that stable insertion gives. *)
Fixpoint sort_insert {A} (comparator : A -> A -> number) (x : A) (sorted : list A) : list A :=
  match sorted with
  | [] => [x]
  | y :: rest =>
      if gt (comparator x y) zero then y :: sort_insert comparator x rest
      else x :: y :: rest
  end.

Definition sort {A} (comparator : A -> A -> number) (arr : list A) : list A :=
  fold_right (sort_insert comparator) [] arr.

(* ================================================================== *)
(** ** [src/App.tsx]: the figures beside the chart                      *)
(* ================================================================== *)

(** [type Timeframe = '4h' | '8h' | '12h' | '1d'] *)
Inductive Timeframe : Type := tf_4h | tf_8h | tf_12h | tf_1d.

(** The [switch] of [get24HourPrices]: the initial 24 is overwritten in
    each of the four cases. *)
Definition candlesToCheck (timeframe : Timeframe) : Z :=
  let candlesToCheck := 24 in
  match timeframe with
  | tf_4h => 6
  | tf_8h => 3
  | tf_12h => 2
  | tf_1d => 1
  end.

(** [{ high, low }] *)
Module DayRange.
Record t : Type := mk { high : number; low : number }.
End DayRange.

Definition get24HourPrices (timeframe : Timeframe) (data : list KlineData.t) : DayRange.t :=
  if length data =? 0 then DayRange.mk 0 0
  else
    let last24HoursData := slice_from data (- candlesToCheck timeframe) in
    let high := Math_max (map KlineData.high last24HoursData) in
    let low := Math_min (map KlineData.low last24HoursData) in
    DayRange.mk high low.

(** [{ support, resistance }] *)
Module Levels.
Record t : Type := mk { support : number; resistance : number }.
End Levels.

(** [recentData[0]] is read for its [high], [low] and [close]; were it
    [undefined] the first of these reads would throw. *)
Definition calculateSupportResistance (data : list KlineData.t) : Completion Levels.t :=
  if length data <? 10 then Return (Levels.mk 0 0)
  else
    let recentData := slice_from data (-10) in
    first <- deref (get recentData 0) ;;
    let pivot :=
      ((KlineData.high first + KlineData.low first + KlineData.close first) / 3)%float in
    let resistance := (2 * pivot - KlineData.low first)%float in
    let support := (2 * pivot - KlineData.high first)%float in
    Return
      {| Levels.support := Math_min (support :: map KlineData.low recentData);
         Levels.resistance := Math_max (resistance :: map KlineData.high recentData) |}.

(** [signal.type === 'resistance'] and [signal.type === 'support'] *)
Definition is_type (ty : SignalType) (signal : BreakoutSignal.t) : bool :=
  match BreakoutSignal.type signal, ty with
  | Resistance, Resistance => true
  | Support, Support => true
  | _, _ => false
  end.

(** [(a, b) => b.time - a.time] *)
Definition newest_first (a b : BreakoutSignal.t) : number :=
  (BreakoutSignal.time b - BreakoutSignal.time a)%float.

(** [signals.filter(...).sort(...).slice(0, 10)] *)
Definition latest_signals (ty : SignalType) (signals : list BreakoutSignal.t)
    : list BreakoutSignal.t :=
  slice (sort newest_first (filter (is_type ty) signals)) 0 10.

Definition resistanceSignals (signals : list BreakoutSignal.t) : list BreakoutSignal.t :=
  latest_signals Resistance signals.

Definition supportSignals (signals : list BreakoutSignal.t) : list BreakoutSignal.t :=
  latest_signals Support signals.

(** [data[data.length - 1]?.close]: the close shown as current price,
    [undefined] for an empty array. *)
Definition current_close (data : list KlineData.t) : option number :=
  option_map KlineData.close (get data (length data - 1)).

(** [s.charAt(0)], [s.slice(1)] and [s.toUpperCase()] on strings of ASCII
    characters. *)
Definition charAt0 (s : String.string) : String.string :=
  match s with
  | String.EmptyString => String.EmptyString
  | String.String c _ => String.String c String.EmptyString
  end.

Definition string_slice1 (s : String.string) : String.string :=
  match s with
  | String.EmptyString => String.EmptyString
  | String.String _ rest => rest
  end.

Definition upper_ascii (c : Ascii.ascii) : Ascii.ascii :=
  let n := Ascii.nat_of_ascii c in
  if (97 <=? n)%nat && (n <=? 122)%nat then Ascii.ascii_of_nat (n - 32) else c.

Fixpoint toUpperCase (s : String.string) : String.string :=
  match s with
  | String.EmptyString => String.EmptyString
  | String.String c rest => String.String (upper_ascii c) (toUpperCase rest)
  end.

(* ================================================================== *)
(** ** [src/components/PriceChart.tsx]: the markers                     *)
(* ================================================================== *)

(** The value of [signal.type] as a string. *)
Definition type_string (ty : SignalType) : String.string :=
  match ty with
  | Support => "support"%string
  | Resistance => "resistance"%string
  end.

(** A marker of the chart library. *)
Module Marker.
Record t : Type := mk {
  time : number;
  position : String.string;
  color : String.string;
  shape : String.string;
  text : String.string
}.
End Marker.

(** The function mapped over [signals]. *)
Definition marker_of (signal : BreakoutSignal.t) : Marker.t :=
  let type := type_string (BreakoutSignal.type signal) in
  {| Marker.time := BreakoutSignal.time signal;
     Marker.position :=
       if is_type Resistance signal then "belowBar"%string else "aboveBar"%string;
     Marker.color :=
       if is_type Resistance signal then "#26a69a"%string else "#ef5350"%string;
     Marker.shape :=
       if BreakoutSignal.confirmed signal then "arrowUp"%string else "circle"%string;
     Marker.text :=
       String.append (toUpperCase (charAt0 type))
         (String.append (string_slice1 type)
            (String.append " "%string
               (if BreakoutSignal.confirmed signal then "(Confirmed)"%string
                else ""%string))) |}.

Definition markers (signals : list BreakoutSignal.t) : list Marker.t :=
  map marker_of signals.

(** [a] is not after [b] on the time axis. *)
Definition marker_not_after (a b : Marker.t) : Prop :=
  (Marker.time a <=? Marker.time b)%float = true.

(* ================================================================== *)
(** ** [src/App.tsx]: [fetchData]                                       *)
(* ================================================================== *)

(** One row of [response.data]: the open time in milliseconds and five
    decimal strings (open, high, low, close, volume). *)
Module Row.
Record t : Type := mk {
  d0 : number;
  d1 : String.string;
  d2 : String.string;
  d3 : String.string;
  d4 : String.string;
  d5 : String.string
}.
End Row.

(** What a [catch] can receive: an error of axios (with or without a
    response of the server), another [Error], or a value that is not an
    [Error]. *)
Inductive Thrown : Type :=
| AxiosError (message : String.string) (response : bool)
| OtherError (message : String.string)
| NotAnError.

(** The awaited request: the rows of the response, or what was thrown. *)
Inductive Settled : Type :=
| Resolved (rows : list Row.t)
| Rejected (err : Thrown).

(** The state of the component ([useState]). *)
Module AppState.
Record t : Type := mk {
  timeframe : Timeframe;
  data : list KlineData.t;
  signals : list BreakoutSignal.t;
  loading : bool;
  error : option String.string;
  lastUpdate : number
}.
End AppState.

(** What a call does besides updating the state. *)
Inductive Effect : Type :=
| ConsoleWarn (attempt : Z)
| SetTimeout (delay : Z) (retryCount : Z)
| ConsoleError (message : String.string).

Definition setData (v : list KlineData.t) (st : AppState.t) : AppState.t :=
  AppState.mk (AppState.timeframe st) v (AppState.signals st) (AppState.loading st)
              (AppState.error st) (AppState.lastUpdate st).

Definition setSignals (v : list BreakoutSignal.t) (st : AppState.t) : AppState.t :=
  AppState.mk (AppState.timeframe st) (AppState.data st) v (AppState.loading st)
              (AppState.error st) (AppState.lastUpdate st).

Definition setLoading (v : bool) (st : AppState.t) : AppState.t :=
  AppState.mk (AppState.timeframe st) (AppState.data st) (AppState.signals st) v
              (AppState.error st) (AppState.lastUpdate st).

Definition setError (v : option String.string) (st : AppState.t) : AppState.t :=
  AppState.mk (AppState.timeframe st) (AppState.data st) (AppState.signals st)
              (AppState.loading st) v (AppState.lastUpdate st).

Definition setLastUpdate (v : number) (st : AppState.t) : AppState.t :=
  AppState.mk (AppState.timeframe st) (AppState.data st) (AppState.signals st)
              (AppState.loading st) (AppState.error st) v.

(** [axios.isAxiosError(err) && !err.response] *)
Definition network_error (err : Thrown) : bool :=
  match err with
  | AxiosError _ response => negb response
  | _ => false
  end.

(** [err instanceof Error ? err.message : 'Failed to fetch price data'] *)
Definition message_of (err : Thrown) : String.string :=
  match err with
  | AxiosError message _ => message
  | OtherError message => message
  | NotAnError => "Failed to fetch price data"%string
  end.

(** The state at the first render. *)
Definition initial_state (now : number) : AppState.t :=
  AppState.mk tf_4h [] [] true None now.

Section FetchData.

(** [parseFloat], and the message of the [TypeError] of the engine. *)
Variable parseFloat : String.string -> number.
Variable typeError_message : String.string.

Definition formatted (d : Row.t) : KlineData.t :=
  {| KlineData.time := (Row.d0 d / 1000)%float;
     KlineData.open := parseFloat (Row.d1 d);
     KlineData.high := parseFloat (Row.d2 d);
     KlineData.low := parseFloat (Row.d3 d);
     KlineData.close := parseFloat (Row.d4 d);
     KlineData.volume := parseFloat (Row.d5 d) |}.

(** The [try] block once the request has settled: the state it leaves
    and what it threw, if anything. *)
Definition try_block (settled : Settled) (now : number) (st : AppState.t)
    : AppState.t * option Thrown :=
  match settled with
  | Rejected err => (st, Some err)
  | Resolved rows =>
      let formattedData := map formatted rows in
      let st := setData formattedData st in
      match detectBreakout_default formattedData with
      | Throw TypeError => (st, Some (OtherError typeError_message))
      | Return newSignals =>
          let st := setSignals newSignals st in
          let st := setError None st in
          let st := setLastUpdate now st in
          (st, None)
      end
  end.

(** The [catch] block. *)
Definition catch_block (retryCount : Z) (err : Thrown) (st : AppState.t)
    : AppState.t * list Effect :=
  if (retryCount <? 3) && network_error err then
    (st, [ConsoleWarn (retryCount + 1);
          SetTimeout (1000 * (retryCount + 1)) (retryCount + 1)])
  else
    let errorMessage := message_of err in
    (setError (Some (String.append errorMessage ". Please try again later."%string)) st,
     [ConsoleError errorMessage]).

(** [fetchData(retryCount)], from the state in which it is called to the
    state it leaves when the request has settled as [settled] at time
    [now]: [setLoading(true)], the [try], the [catch] and the
    [finally]. *)
Definition fetchData (retryCount : Z) (settled : Settled) (now : number) (st : AppState.t)
    : AppState.t * list Effect :=
  let st := setLoading true st in
  let '(st, thrown) := try_block settled now st in
  let '(st, effects) :=
    match thrown with
    | None => (st, [])
    | Some err => catch_block retryCount err st
    end in
  (setLoading false st, effects).

(** The retry a call has scheduled, if any. *)
Fixpoint scheduled (effects : list Effect) : option (Z * Z) :=
  match effects with
  | [] => None
  | SetTimeout delay retryCount :: _ => Some (delay, retryCount)
  | _ :: rest => scheduled rest
  end.

(** A call and the retries it schedules, each request settling as the
    next element of [settlements]: the final state, the delays waited
    and the number of requests made. *)
Fixpoint retries (settlements : list (Settled * number)) (retryCount : Z) (st : AppState.t)
    : AppState.t * list Z * nat :=
  match settlements with
  | [] => (st, [], O)
  | (settled, now) :: rest =>
      let '(st', effects) := fetchData retryCount settled now st in
      match scheduled effects with
      | None => (st', [], 1%nat)
      | Some (delay, retryCount') =>
          let '(st'', delays, requests) := retries rest retryCount' st' in
          (st'', delay :: delays, S requests)
      end
  end.

(** The signals of the state are those of its data. *)
Definition consistent (st : AppState.t) : Prop :=
  detectBreakout_default (AppState.data st) = Return (AppState.signals st).

End FetchData.

(* ================================================================== *)
(** ** Vocabulary of the properties of the application *)
(* ================================================================== *)

(** The last [n] elements of an array (all of them when it is shorter). *)
Definition last_n {A} (n : Z) (arr : list A) : list A :=
  skipn (Z.to_nat (length arr - n)) arr.

(** Every candle has a close between its low and its high (so none of
    the three is NaN). *)
Definition close_within (data : list KlineData.t) : Prop :=
  forall c, In c data ->
    (KlineData.low c <=? KlineData.close c)%float = true /\
    (KlineData.close c <=? KlineData.high c)%float = true.

(** The pivot levels of a candle. *)
Definition pivot_of (first : KlineData.t) : number :=
  ((KlineData.high first + KlineData.low first + KlineData.close first) / 3)%float.

Definition pivot_resistance (first : KlineData.t) : number :=
  (2 * pivot_of first - KlineData.low first)%float.

Definition pivot_support (first : KlineData.t) : number :=
  (2 * pivot_of first - KlineData.high first)%float.

(** [later] does not come before [earlier] in time. *)
Definition not_newer (earlier later : BreakoutSignal.t) : Prop :=
  (BreakoutSignal.time later <=? BreakoutSignal.time earlier)%float = true.


(** The delays of the retries that can follow a call made with
    [retryCount]: 1000 ms times the number of the retry, up to the
    third. *)
Definition backoff (retryCount : Z) : list Z :=
  map (fun k => 1000 * k) (indices (retryCount + 1) (Z.to_nat (3 - retryCount))).

(** A number that is neither NaN nor an infinity, on [spec_float]. *)
Definition SF_finite (x : spec_float) : Prop :=
  match x with
  | S754_zero _ | S754_finite _ _ _ => True
  | _ => False
  end.

(** Three resistance signals out of time order. *)
Definition three_signals : list BreakoutSignal.t :=
  [BreakoutSignal.mk 1 Resistance 50 true;
   BreakoutSignal.mk 3 Resistance 52 false;
   BreakoutSignal.mk 2 Resistance 51 true].

(* ================================================================== *)
(** ** Comparisons of numbers *)
(* ================================================================== *)

(** The comparisons of binary64, through their specification on
    [spec_float]. *)

Lemma ltb_compare (x y : number) :
  (x <? y)%float = true <-> SFcompare (Prim2SF x) (Prim2SF y) = Some Lt.
Proof.
  rewrite ltb_spec. unfold SFltb.
  destruct (SFcompare (Prim2SF x) (Prim2SF y)) as [[| |] |]; split; congruence.
Qed.

Lemma eqb_compare (x y : number) :
  (x =? y)%float = true <-> SFcompare (Prim2SF x) (Prim2SF y) = Some Eq.
Proof.
  rewrite eqb_spec. unfold SFeqb.
  destruct (SFcompare (Prim2SF x) (Prim2SF y)) as [[| |] |]; split; congruence.
Qed.

Lemma leb_compare (x y : number) :
  (x <=? y)%float = true <->
  SFcompare (Prim2SF x) (Prim2SF y) = Some Lt \/ SFcompare (Prim2SF x) (Prim2SF y) = Some Eq.
Proof.
  rewrite leb_spec. unfold SFleb.
  destruct (SFcompare (Prim2SF x) (Prim2SF y)) as [[| |] |]; split;
    solve [auto | congruence | intros [H | H]; congruence].
Qed.

Lemma SFcompare_antisym (x y : spec_float) :
  SFcompare y x = option_map CompOpp (SFcompare x y).
Proof.
  destruct x as [[|] | [|] | | [|] m1 e1], y as [[|] | [|] | | [|] m2 e2];
    simpl; try reflexivity.
  all: rewrite (Z.compare_antisym e1 e2); destruct (e1 ?= e2); simpl; try reflexivity.
  all: pose proof (Pos.compare_cont_antisym m1 m2 Eq) as H; simpl in H;
    change (PosDef.Pos.compare_cont Eq m2 m1) with (Pos.compare_cont Eq m2 m1);
    rewrite <- H; now destruct (Pos.compare_cont Eq m1 m2).
Qed.

Lemma SFcompare_refl (x : spec_float) : x <> S754_nan -> SFcompare x x = Some Eq.
Proof.
  destruct x as [[|] | [|] | | [|] m e]; simpl; try reflexivity; try congruence.
  all: intros _; rewrite Z.compare_refl;
    change (PosDef.Pos.compare_cont Eq m m) with (Pos.compare m m);
    now rewrite Pos.compare_refl.
Qed.

Lemma SFcompare_total (x y : spec_float) :
  x <> S754_nan -> y <> S754_nan -> exists c, SFcompare x y = Some c.
Proof.
  intros Hx Hy.
  destruct x as [[|] | [|] | | [|] m1 e1], y as [[|] | [|] | | [|] m2 e2];
    simpl; try congruence; eauto.
Qed.

Lemma SFcompare_le_lt_trans (a b c : spec_float) :
  SFcompare a b = Some Lt \/ SFcompare a b = Some Eq ->
  SFcompare b c = Some Lt ->
  SFcompare a c = Some Lt.
Proof.
  intros Hab Hbc.
  destruct a as [[|] | [|] | | [|] ma ea], b as [[|] | [|] | | [|] mb eb],
           c as [[|] | [|] | | [|] mc ec];
    simpl in *; try (destruct Hab; discriminate); try discriminate; try reflexivity.
  all: compare_cases; simpl in *;
    try reflexivity; try discriminate; try (destruct Hab; discriminate); try lia.
Qed.

Lemma SFcompare_lt_le_trans (a b c : spec_float) :
  SFcompare a b = Some Lt ->
  SFcompare b c = Some Lt \/ SFcompare b c = Some Eq ->
  SFcompare a c = Some Lt.
Proof.
  intros Hab Hbc.
  destruct a as [[|] | [|] | | [|] ma ea], b as [[|] | [|] | | [|] mb eb],
           c as [[|] | [|] | | [|] mc ec];
    simpl in *; try (destruct Hbc; discriminate); try discriminate; try reflexivity.
  all: compare_cases; simpl in *;
    try reflexivity; try discriminate; try (destruct Hbc; discriminate); try lia.
Qed.

Lemma SFcompare_le_le_trans (a b c : spec_float) :
  SFcompare a b = Some Lt \/ SFcompare a b = Some Eq ->
  SFcompare b c = Some Lt \/ SFcompare b c = Some Eq ->
  SFcompare a c = Some Lt \/ SFcompare a c = Some Eq.
Proof.
  intros Hab Hbc.
  destruct a as [[|] | [|] | | [|] ma ea], b as [[|] | [|] | | [|] mb eb],
           c as [[|] | [|] | | [|] mc ec];
    simpl in *; auto; try (destruct Hab; discriminate); try (destruct Hbc; discriminate).
  all: compare_cases; simpl in *; auto;
    try (destruct Hab; discriminate); try (destruct Hbc; discriminate); try lia.
Qed.

Lemma SFcompare_finite_le (m m2 : positive) (e e2 : Z) :
  e < e2 \/ (e = e2 /\ Z.pos m <= Z.pos m2) ->
  SFcompare (S754_finite false m e) (S754_finite false m2 e2) = Some Lt \/
  SFcompare (S754_finite false m e) (S754_finite false m2 e2) = Some Eq.
Proof.
  intros H. simpl. destruct (Z.compare_spec e e2) as [Heq | Hlt | Hgt].
  - destruct H as [H | [_ H]]; [lia |].
    change (PosDef.Pos.compare_cont Eq m m2) with (Pos.compare m m2).
    destruct (Pos.compare_spec m m2); auto. lia.
  - auto.
  - lia.
Qed.

Lemma eqb_sym (x y : number) : (x =? y)%float = (y =? x)%float.
Proof.
  rewrite !eqb_spec. unfold SFeqb. rewrite (SFcompare_antisym (Prim2SF x) (Prim2SF y)).
  destruct (SFcompare (Prim2SF x) (Prim2SF y)) as [[| |] |]; reflexivity.
Qed.

Lemma ltb_leb (x y : number) : (x <? y)%float = true -> (x <=? y)%float = true.
Proof. rewrite ltb_compare, leb_compare. auto. Qed.

Lemma ltb_not_eqb (x y : number) : (x <? y)%float = true -> (x =? y)%float = false.
Proof.
  intros H. apply ltb_compare in H. apply not_true_is_false.
  rewrite eqb_compare. congruence.
Qed.

Lemma ltb_asym (x y : number) : (x <? y)%float = true -> (y <? x)%float = false.
Proof.
  intros H. apply ltb_compare in H. apply not_true_is_false. rewrite ltb_compare.
  rewrite (SFcompare_antisym (Prim2SF x) (Prim2SF y)), H. discriminate.
Qed.

Lemma not_nan_leb_refl (x : number) : is_nan x = false -> (x <=? x)%float = true.
Proof.
  unfold is_nan. intros H. apply negb_false_iff in H.
  apply eqb_compare in H. apply leb_compare. auto.
Qed.

Lemma leb_not_nan_r (x y : number) : (x <=? y)%float = true -> is_nan y = false.
Proof.
  intros H. apply leb_compare in H. unfold is_nan. apply negb_false_iff, eqb_compare.
  apply SFcompare_refl. intros Hnan. rewrite Hnan in H.
  destruct (Prim2SF x) as [[|] | [|] | | [|] m e]; simpl in H; destruct H; discriminate.
Qed.

Lemma Prim2SF_not_nan (x : number) : is_nan x = false -> Prim2SF x <> S754_nan.
Proof.
  unfold is_nan. intros H Hnan. apply negb_false_iff, eqb_compare in H.
  rewrite Hnan in H. discriminate.
Qed.

Lemma leb_ltb_trans (x y z : number) :
  (x <=? y)%float = true -> (y <? z)%float = true -> (x <? z)%float = true.
Proof. rewrite leb_compare, !ltb_compare. apply SFcompare_le_lt_trans. Qed.

Lemma ltb_leb_trans (x y z : number) :
  (x <? y)%float = true -> (y <=? z)%float = true -> (x <? z)%float = true.
Proof. rewrite leb_compare, !ltb_compare. apply SFcompare_lt_le_trans. Qed.

Lemma leb_trans (x y z : number) :
  (x <=? y)%float = true -> (y <=? z)%float = true -> (x <=? z)%float = true.
Proof. rewrite !leb_compare. apply SFcompare_le_le_trans. Qed.

(** Of two numbers, when the first is not less than the second the
    second is at most the first. *)
Lemma not_ltb_leb (x y : number) :
  is_nan x = false -> is_nan y = false ->
  (x <? y)%float = false -> (y <=? x)%float = true.
Proof.
  intros Hx Hy Hlt. apply leb_compare. rewrite (SFcompare_antisym (Prim2SF x) (Prim2SF y)).
  destruct (SFcompare_total _ _ (Prim2SF_not_nan x Hx) (Prim2SF_not_nan y Hy)) as [c Hc].
  rewrite Hc. destruct c; simpl; auto.
  apply ltb_compare in Hc. congruence.
Qed.

Lemma Leibniz_eqb_eq (x y : number) : Leibniz.eqb x y = true -> x = y.
Proof. apply FloatAxioms.Leibniz.eqb_spec. Qed.

Lemma not_above_neg_infinity (n : number) :
  is_nan n = false -> (neg_infinity <? n)%float = false -> n = neg_infinity.
Proof.
  intros Hn Hlt. apply Prim2SF_inj. apply Prim2SF_not_nan in Hn.
  rewrite ltb_spec in Hlt. unfold SFltb in Hlt.
  change (Prim2SF neg_infinity) with (S754_infinity true) in *.
  destruct (Prim2SF n) as [[|] | [|] | | [|] m e]; simpl in Hlt; congruence.
Qed.

Lemma not_below_infinity (n : number) :
  is_nan n = false -> (n <? infinity)%float = false -> n = infinity.
Proof.
  intros Hn Hlt. apply Prim2SF_inj. apply Prim2SF_not_nan in Hn.
  rewrite ltb_spec in Hlt. unfold SFltb in Hlt.
  change (Prim2SF infinity) with (S754_infinity false) in *.
  destruct (Prim2SF n) as [[|] | [|] | | [|] m e]; simpl in Hlt; congruence.
Qed.

(** The image of a NaN. *)
Lemma is_nan_Prim2SF (x : number) : is_nan x = true -> Prim2SF x = S754_nan.
Proof.
  unfold is_nan. intros H. apply negb_true_iff in H. rewrite eqb_spec in H.
  unfold SFeqb in H.
  destruct (Prim2SF x) as [s | s | | s m e]; [| | reflexivity |];
    rewrite SFcompare_refl in H by discriminate; discriminate.
Qed.

(** A NaN factor makes the product NaN, and no comparison with NaN is
    true: a level whose scaled threshold is passed is a number. *)
Lemma mul_NaN_l (x k : number) : is_nan x = true -> is_nan (x * k)%float = true.
Proof.
  intros H. apply is_nan_Prim2SF in H.
  destruct (is_nan (x * k)%float) eqn:E; [reflexivity |].
  apply Prim2SF_not_nan in E. exfalso. apply E.
  rewrite mul_spec, H. destruct (Prim2SF k); reflexivity.
Qed.

Lemma ltb_not_nan_l (x y : number) : (x <? y)%float = true -> is_nan x = false.
Proof.
  intros H. destruct (is_nan x) eqn:E; [| reflexivity].
  apply is_nan_Prim2SF in E. rewrite ltb_spec, E in H. discriminate.
Qed.

Lemma ltb_not_nan_r (x y : number) : (x <? y)%float = true -> is_nan y = false.
Proof.
  intros H. destruct (is_nan y) eqn:E; [| reflexivity].
  apply is_nan_Prim2SF in E. rewrite ltb_spec, E in H.
  destruct (Prim2SF x) as [[|] | [|] | | [|] m e]; discriminate.
Qed.

Lemma gt_mul_number (x level k : number) :
  gt x (level * k)%float = true -> is_nan level = false.
Proof.
  intros H. apply ltb_not_nan_l in H.
  destruct (is_nan level) eqn:E; [| reflexivity].
  rewrite (mul_NaN_l level k E) in H. discriminate.
Qed.

Lemma lt_mul_number (x level k : number) :
  lt x (level * k)%float = true -> is_nan level = false.
Proof.
  intros H. apply ltb_not_nan_r in H.
  destruct (is_nan level) eqn:E; [| reflexivity].
  rewrite (mul_NaN_l level k E) in H. discriminate.
Qed.

(* ================================================================== *)
(** ** Rounding of a product *)
(* ================================================================== *)

(** [x * 1.002] and [x * 0.998] are rounded to the nearest binary64
    value.  The two facts needed about them, that scaling a number that
    is not negative by 1.002 does not make it smaller and scaling it by
    0.998 does not make it larger, are proved on the specification of the
    multiplication ([SFmul], [binary_round_aux]). *)

Lemma digits2_pos_bounds (p : positive) :
  2 ^ (Z.pos (digits2_pos p) - 1) <= Z.pos p < 2 ^ Z.pos (digits2_pos p).
Proof.
  induction p as [p IH | p IH |]; simpl digits2_pos.
  - rewrite Pos2Z.inj_succ. change (Z.pos p~1) with (2 * Z.pos p + 1).
    replace (Z.succ (Z.pos (digits2_pos p)) - 1) with (Z.succ (Z.pos (digits2_pos p) - 1)) by lia.
    rewrite !Z.pow_succ_r by lia. hide_pow. lia.
  - rewrite Pos2Z.inj_succ. change (Z.pos p~0) with (2 * Z.pos p).
    replace (Z.succ (Z.pos (digits2_pos p)) - 1) with (Z.succ (Z.pos (digits2_pos p) - 1)) by lia.
    rewrite !Z.pow_succ_r by lia. hide_pow. lia.
  - simpl. lia.
Qed.

Lemma digits2_pos_le (p : positive) (k : Z) :
  Z.pos p < 2 ^ k -> Z.pos (digits2_pos p) <= k.
Proof.
  intros H. destruct (digits2_pos_bounds p) as [Hlo _].
  destruct (Z.le_gt_cases (Z.pos (digits2_pos p)) k) as [Hle | Hgt]; [exact Hle |].
  assert (2 ^ k <= 2 ^ (Z.pos (digits2_pos p) - 1)).
  { destruct (Z.lt_ge_cases k 0) as [Hk | Hk].
    - rewrite (Z.pow_neg_r 2 k Hk). apply Z.pow_nonneg. lia.
    - apply Z.pow_le_mono_r; lia. }
  lia.
Qed.

Lemma digits2_pos_ge (p : positive) (k : Z) :
  2 ^ k <= Z.pos p -> k + 1 <= Z.pos (digits2_pos p).
Proof.
  intros H. destruct (digits2_pos_bounds p) as [_ Hhi].
  destruct (Z.le_gt_cases (k + 1) (Z.pos (digits2_pos p))) as [Hle | Hgt]; [exact Hle |].
  assert (2 ^ Z.pos (digits2_pos p) <= 2 ^ k) by (apply Z.pow_le_mono_r; lia).
  lia.
Qed.

Lemma Zdigits2_le (m k : Z) : 0 < m -> m < 2 ^ k -> Zdigits2 m <= k.
Proof.
  intros Hm Hk. destruct m as [| p | p]; try lia. simpl. now apply digits2_pos_le.
Qed.

Lemma digits2_mul (m mc : positive) :
  2 ^ 52 <= Z.pos mc < 2 ^ 53 ->
  Z.pos (digits2_pos m) + 52 <= Z.pos (digits2_pos (m * mc)) <= Z.pos (digits2_pos m) + 53.
Proof.
  intros Hmc. destruct (digits2_pos_bounds m) as [Hlo Hhi]. split.
  - replace (Z.pos (digits2_pos m) + 52) with ((Z.pos (digits2_pos m) - 1 + 52) + 1) by lia.
    apply digits2_pos_ge. rewrite Z.pow_add_r by lia. rewrite Pos2Z.inj_mul.
    apply Z.mul_le_mono_nonneg; try lia.
  - apply digits2_pos_le. rewrite Z.pow_add_r by lia. rewrite Pos2Z.inj_mul.
    apply Z.mul_lt_mono_nonneg; lia.
Qed.

Lemma shr_m_shr_1 (mrs : shr_record) :
  0 <= shr_m mrs -> shr_m (shr_1 mrs) = Z.div2 (shr_m mrs).
Proof.
  destruct mrs as [m r s]. simpl. destruct m as [| [p | p |] | p]; intros H; try reflexivity; lia.
Qed.

Lemma shr_m_iter_pos (p : positive) :
  forall mrs, 0 <= shr_m mrs ->
    shr_m (iter_pos shr_1 p mrs) = shr_m mrs / 2 ^ Z.pos p.
Proof.
  induction p as [p IH | p IH |]; intros mrs Hm; simpl iter_pos.
  - assert (H1 : 0 <= shr_m (shr_1 mrs)).
    { rewrite shr_m_shr_1 by exact Hm. rewrite Z.div2_div. apply Z.div_pos; lia. }
    assert (H2 : 0 <= shr_m (iter_pos shr_1 p (shr_1 mrs))).
    { rewrite IH by exact H1. apply Z.div_pos; [exact H1 | apply Z.pow_pos_nonneg; lia]. }
    rewrite IH by exact H2. rewrite IH by exact H1. rewrite shr_m_shr_1 by exact Hm.
    rewrite Z.div2_div, !Z.div_div by (try apply Z.pow_pos_nonneg; lia).
    f_equal. change (Z.pos p~1) with (2 * Z.pos p + 1).
    replace (2 * Z.pos p + 1) with (1 + Z.pos p + Z.pos p) by lia.
    rewrite !Z.pow_add_r by lia. lia.
  - assert (H2 : 0 <= shr_m (iter_pos shr_1 p mrs)).
    { rewrite IH by exact Hm. apply Z.div_pos; [exact Hm | apply Z.pow_pos_nonneg; lia]. }
    rewrite IH by exact H2. rewrite IH by exact Hm.
    rewrite !Z.div_div by (try apply Z.pow_pos_nonneg; lia).
    f_equal. change (Z.pos p~0) with (2 * Z.pos p).
    replace (2 * Z.pos p) with (Z.pos p + Z.pos p) by lia.
    rewrite !Z.pow_add_r by lia. lia.
  - rewrite shr_m_shr_1 by exact Hm. rewrite Z.div2_div. reflexivity.
Qed.

Lemma round_nearest_even_bounds (m : Z) (l : location) :
  m <= round_nearest_even m l <= m + 1.
Proof.
  destruct l as [| [| |]]; simpl; try destruct (Z.even m); lia.
Qed.

Lemma fexp_eq (x : Z) : fexp prec emax x = Z.max (x - 53) (-1074).
Proof. reflexivity. Qed.

Lemma bounded_inv (m : positive) (e : Z) :
  bounded prec emax m e = true ->
  Z.max (Z.pos (digits2_pos m) + e - 53) (-1074) = e /\ e <= 971.
Proof.
  unfold bounded, canonical_mantissa, fexp, SpecFloat.emin, prec, emax.
  rewrite andb_true_iff, Z.eqb_eq, Z.leb_le. auto.
Qed.

(** [shr_fexp] on a mantissa that is not negative: no shift when the
    exponent is already the target, else a division by a power of two. *)
Lemma shr_fexp_spec (m e : Z) (l : location) :
  0 <= m ->
  exists mrs e',
    shr_fexp prec emax m e l = (mrs, e') /\
    let n := fexp prec emax (Zdigits2 m + e) - e in
    (n <= 0 -> shr_m mrs = m /\ e' = e) /\
    (0 < n -> shr_m mrs = m / 2 ^ n /\ e' = e + n).
Proof.
  intros Hm. unfold shr_fexp.
  set (n := fexp prec emax (Zdigits2 m + e) - e).
  assert (Hrec : shr_m (shr_record_of_loc m l) = m) by (destruct l as [| [| |]]; reflexivity).
  destruct n as [| p | p] eqn:En; simpl shr.
  - eexists. eexists. split; [reflexivity |]. simpl. split; [auto | lia].
  - eexists. eexists. split; [reflexivity |]. simpl. split; [lia |].
    intros _. split; [| reflexivity]. rewrite shr_m_iter_pos by (rewrite Hrec; exact Hm).
    now rewrite Hrec.
  - eexists. eexists. split; [reflexivity |]. simpl. split; [auto | lia].
Qed.

Lemma round_finish_pos (sx : bool) (m1 e1 : Z) :
  0 < m1 -> -1074 <= e1 ->
  exists m2 e2,
    round_finish sx m1 e1 = (if e2 <=? 971 then S754_finite sx m2 e2 else S754_infinity sx) /\
    ((e2 = e1 /\ Z.pos m2 = m1) \/
     (e1 < e2 /\ e2 = e1 + (Zdigits2 m1 - 53) /\ Z.pos m2 = m1 / 2 ^ (e2 - e1) /\
      2 ^ 52 <= Z.pos m2)).
Proof.
  intros Hm He. unfold round_finish.
  destruct (shr_fexp_spec m1 e1 loc_Exact ltac:(lia)) as (mrs & e2 & Heq & Hno & Hyes).
  rewrite Heq. cbv zeta in Hno, Hyes. rewrite fexp_eq in Hno, Hyes.
  destruct m1 as [| p1 | p1]; try lia. simpl Zdigits2 in *.
  destruct (Z_le_gt_dec (Z.max (Z.pos (digits2_pos p1) + e1 - 53) (-1074) - e1) 0) as [Hn | Hn].
  - destruct (Hno Hn) as [-> ->]. exists p1, e1. split; [reflexivity | auto].
  - destruct (Hyes ltac:(lia)) as [Hm2 ->].
    assert (Hshift : Z.max (Z.pos (digits2_pos p1) + e1 - 53) (-1074) - e1
                     = Z.pos (digits2_pos p1) - 53) by lia.
    rewrite Hshift in *.
    assert (Hlow : 2 ^ 52 <= shr_m mrs).
    { rewrite Hm2. apply Z.div_le_lower_bound; [apply Z.pow_pos_nonneg; lia |].
      rewrite <- Z.pow_add_r by lia.
      replace (Z.pos (digits2_pos p1) - 53 + 52) with (Z.pos (digits2_pos p1) - 1) by lia.
      apply digits2_pos_bounds. }
    destruct (shr_m mrs) as [| p2 | p2] eqn:Ep2; try lia.
    exists p2, (e1 + (Z.pos (digits2_pos p1) - 53)). split; [reflexivity |].
    right. replace (e1 + (Z.pos (digits2_pos p1) - 53) - e1) with (Z.pos (digits2_pos p1) - 53) by lia.
    repeat split; first [lia | exact Hm2].
Qed.

Lemma round_finish_zero (sx : bool) (e1 : Z) :
  -1074 <= e1 -> round_finish sx 0 e1 = S754_zero sx.
Proof.
  intros He. unfold round_finish.
  destruct (shr_fexp_spec 0 e1 loc_Exact ltac:(lia)) as (mrs & e2 & Heq & Hno & Hyes).
  rewrite Heq. cbv zeta in Hno, Hyes. rewrite fexp_eq in Hno, Hyes. simpl Zdigits2 in *.
  destruct (Hno ltac:(lia)) as [-> _]. reflexivity.
Qed.

Lemma binary_round_aux_finish (sx : bool) (mx ex : Z) :
  binary_round_aux prec emax sx mx ex loc_Exact =
  round_finish sx
    (round_nearest_even (shr_m (fst (shr_fexp prec emax mx ex loc_Exact)))
                        (loc_of_shr_record (fst (shr_fexp prec emax mx ex loc_Exact))))
    (snd (shr_fexp prec emax mx ex loc_Exact)).
Proof.
  unfold binary_round_aux, round_finish.
  destruct (shr_fexp prec emax mx ex loc_Exact) as [mrs e1]. reflexivity.
Qed.

Lemma mul_round_ge (m mc : positive) (e : Z) :
  bounded prec emax m e = true ->
  2 ^ 52 <= Z.pos mc < 2 ^ 53 ->
  let res := binary_round_aux prec emax false (Z.pos (m * mc)) (e + -52) loc_Exact in
  res = S754_infinity false \/
  exists m2 e2, res = S754_finite false m2 e2 /\ (e < e2 \/ (e = e2 /\ Z.pos m <= Z.pos m2)).
Proof.
  intros Hb Hmc res. apply bounded_inv in Hb. destruct Hb as [Hcan Hemax].
  pose proof (digits2_mul m mc Hmc) as HdM.
  pose proof (digits2_pos_bounds (m * mc)) as HM.
  unfold res. rewrite binary_round_aux_finish.
  destruct (shr_fexp_spec (Z.pos (m * mc)) (e + -52) loc_Exact ltac:(lia))
    as (mrs & e1 & Heq1 & _ & Hyes1).
  rewrite Heq1. cbn [fst snd]. cbv zeta in Hyes1. rewrite fexp_eq in Hyes1.
  simpl Zdigits2 in Hyes1.
  set (n := Z.max (Z.pos (digits2_pos (m * mc)) + (e + -52) - 53) (-1074) - (e + -52)) in *.
  assert (Hcase : (n = 52 /\ e + -52 + n = e) \/
                  (n = 53 /\ e + -52 + n = e + 1 /\ Z.pos (digits2_pos (m * mc)) = 106))
    by lia.
  destruct Hyes1 as [Hm1 ->]; [lia |].
  pose proof (round_nearest_even_bounds (shr_m mrs) (loc_of_shr_record mrs)) as Hrne.
  set (m1 := round_nearest_even (shr_m mrs) (loc_of_shr_record mrs)) in *.
  destruct Hcase as [[Hn ->] | [Hn [-> HdM106]]]; rewrite Hn in Hm1.
  - assert (Hlow : Z.pos m <= shr_m mrs).
    { rewrite Hm1. apply Z.div_le_lower_bound; [lia |].
      rewrite Pos2Z.inj_mul, (Z.mul_comm (2 ^ 52)). apply Z.mul_le_mono_nonneg_l; lia. }
    destruct (round_finish_pos false m1 e ltac:(lia) ltac:(lia)) as (m2 & e2 & -> & Hres).
    destruct (e2 <=? 971); [right | now left].
    exists m2, e2. split; [reflexivity |]. lia.
  - assert (Hlow : 2 ^ 52 <= shr_m mrs).
    { rewrite Hm1. apply Z.div_le_lower_bound; [lia |].
      rewrite HdM106 in HM. change (2 ^ 53 * 2 ^ 52) with (2 ^ (106 - 1)). lia. }
    destruct (round_finish_pos false m1 (e + 1) ltac:(lia) ltac:(lia)) as (m2 & e2 & -> & Hres).
    destruct (e2 <=? 971); [right | now left].
    exists m2, e2. split; [reflexivity |]. lia.
Qed.

Lemma mul_round_le (m mc : positive) (e : Z) :
  bounded prec emax m e = true ->
  2 ^ 52 <= Z.pos mc < 2 ^ 53 ->
  let res := binary_round_aux prec emax false (Z.pos (m * mc)) (e + -53) loc_Exact in
  res = S754_zero false \/
  exists m2 e2, res = S754_finite false m2 e2 /\ (e2 < e \/ (e2 = e /\ Z.pos m2 <= Z.pos m)).
Proof.
  intros Hb Hmc res. apply bounded_inv in Hb. destruct Hb as [Hcan Hemax].
  pose proof (digits2_mul m mc Hmc) as HdM.
  pose proof (digits2_pos_bounds (m * mc)) as HM.
  pose proof (digits2_pos_bounds m) as Hd.
  unfold res. rewrite binary_round_aux_finish.
  destruct (shr_fexp_spec (Z.pos (m * mc)) (e + -53) loc_Exact ltac:(lia))
    as (mrs & e1 & Heq1 & _ & Hyes1).
  rewrite Heq1. cbn [fst snd]. cbv zeta in Hyes1. rewrite fexp_eq in Hyes1.
  simpl Zdigits2 in Hyes1.
  set (n := Z.max (Z.pos (digits2_pos (m * mc)) + (e + -53) - 53) (-1074) - (e + -53)) in *.
  assert (Hcase : (n = 53 /\ e + -53 + n = e) \/
                  (n = 52 /\ e + -53 + n = e - 1 /\ Z.pos (digits2_pos (m * mc)) = 105 /\
                   Z.pos (digits2_pos m) = 53 /\ -1074 <= e - 1))
    by lia.
  destruct Hyes1 as [Hm1 ->]; [lia |].
  pose proof (round_nearest_even_bounds (shr_m mrs) (loc_of_shr_record mrs)) as Hrne.
  set (m1 := round_nearest_even (shr_m mrs) (loc_of_shr_record mrs)) in *.
  destruct Hcase as [[Hn ->] | [Hn [-> [HdM105 [Hd53 Hemin]]]]]; rewrite Hn in Hm1.
  - assert (Hup : 0 <= shr_m mrs < Z.pos m).
    { rewrite Hm1. split; [apply Z.div_pos; lia |].
      apply Z.div_lt_upper_bound; [lia |].
      rewrite Pos2Z.inj_mul, (Z.mul_comm (2 ^ 53)). apply Z.mul_lt_mono_pos_l; lia. }
    assert (Hm53 : Z.pos m < 2 ^ 53).
    { apply Z.lt_le_trans with (2 ^ Z.pos (digits2_pos m)); [apply Hd |].
      apply Z.pow_le_mono_r; lia. }
    destruct (Z.eq_dec m1 0) as [-> | Hnz].
    + left. apply round_finish_zero. lia.
    + right.
      destruct (round_finish_pos false m1 e ltac:(lia) ltac:(lia)) as (m2 & e2 & -> & Hres).
      pose proof (Zdigits2_le m1 53 ltac:(lia) ltac:(lia)) as Hdig.
      destruct Hres as [[-> Hm2] | Hres]; [| lia].
      destruct (Z.leb_spec e 971); [| lia].
      exists m2, e. split; [reflexivity |]. lia.
  - assert (Hup : 2 ^ 52 <= shr_m mrs < 2 ^ 53).
    { rewrite Hm1. rewrite HdM105 in HM. split.
      - apply Z.div_le_lower_bound; [lia |].
        change (2 ^ 52 * 2 ^ 52) with (2 ^ (105 - 1)). lia.
      - apply Z.div_lt_upper_bound; [lia |].
        change (2 ^ 52 * 2 ^ 53) with (2 ^ 105). lia. }
    rewrite Hd53 in Hd.
    right.
    destruct (round_finish_pos false m1 (e - 1) ltac:(lia) ltac:(lia)) as (m2 & e2 & -> & Hres).
    pose proof (Zdigits2_le m1 54 ltac:(lia) ltac:(change (2 ^ 54) with (2 * 2 ^ 53); lia)) as Hdig.
    destruct Hres as [[-> Hm2] | (Hlt & He2 & Hm2 & Hlow2)].
    + destruct (Z.leb_spec (e - 1) 971); [| lia].
      exists m2, (e - 1). split; [reflexivity |]. lia.
    + assert (He : e2 = e) by lia. clear He2. subst e2.
      destruct (Z.leb_spec e 971); [| lia].
      exists m2, e. split; [reflexivity |]. right. split; [reflexivity |].
      replace (e - (e - 1)) with 1 in Hm2 by lia.
      assert (Z.pos m2 <= 2 ^ 52).
      { rewrite Hm2. change (2 ^ 1) with 2.
        apply Z.div_le_upper_bound; [lia |]. change (2 * 2 ^ 52) with (2 ^ 53). lia. }
      change (2 ^ (53 - 1)) with (2 ^ 52) in Hd. lia.
Qed.

Lemma Prim2SF_c1_002 : Prim2SF c1_002 = S754_finite false 4512606826625237 (-52).
Proof. vm_compute. reflexivity. Qed.

Lemma Prim2SF_c0_998 : Prim2SF c0_998 = S754_finite false 8989184856231510 (-53).
Proof. vm_compute. reflexivity. Qed.

Lemma Prim2SF_zero : Prim2SF zero = S754_zero false.
Proof. vm_compute. reflexivity. Qed.

Lemma mul_c1_002_ge (r : number) :
  (zero <=? r)%float = true -> (r <=? r * c1_002)%float = true.
Proof.
  rewrite !leb_compare, mul_spec, Prim2SF_c1_002, Prim2SF_zero.
  pose proof (Prim2SF_valid r) as Hv.
  destruct (Prim2SF r) as [[|] | [|] | | [|] m e]; simpl;
    try solve [auto | intros [H | H]; discriminate].
  intros _. unfold SF64mul, SFmul. simpl xorb.
  assert (Hmc : 2 ^ 52 <= 4512606826625237 < 2 ^ 53) by (split; reflexivity || discriminate).
  destruct (mul_round_ge m 4512606826625237 e Hv Hmc) as [-> | (m2 & e2 & -> & Hle)].
  - left. reflexivity.
  - now apply SFcompare_finite_le.
Qed.

Lemma mul_c0_998_le (s : number) :
  (zero <=? s)%float = true -> (s * c0_998 <=? s)%float = true.
Proof.
  rewrite !leb_compare, mul_spec, Prim2SF_c0_998, Prim2SF_zero.
  pose proof (Prim2SF_valid s) as Hv.
  destruct (Prim2SF s) as [[|] | [|] | | [|] m e]; simpl;
    try solve [auto | intros [H | H]; discriminate].
  intros _. unfold SF64mul, SFmul. simpl xorb.
  assert (Hmc : 2 ^ 52 <= 8989184856231510 < 2 ^ 53) by (split; reflexivity || discriminate).
  destruct (mul_round_le m 8989184856231510 e Hv Hmc) as [-> | (m2 & e2 & -> & Hle)].
  - left. reflexivity.
  - now apply SFcompare_finite_le.
Qed.

(* ================================================================== *)
(** ** [Math.max] and [Math.min] *)
(* ================================================================== *)

Lemma Math_max_from_attained (values : list number) :
  Forall (fun v => is_nan v = false) values ->
  forall highest,
    Math_max_from highest values = highest \/ In (Math_max_from highest values) values.
Proof.
  induction 1 as [| n rest Hn Hrest IH]; intros highest; simpl; [now left |].
  rewrite Hn.
  destruct (Leibniz.eqb n zero && Leibniz.eqb highest neg_zero) eqn:Ez.
  - apply andb_true_iff in Ez. destruct Ez as [Ez _]. apply Leibniz_eqb_eq in Ez.
    destruct (gt n zero);
      match goal with |- context [Math_max_from ?h rest] => destruct (IH h) as [-> | Hin] end;
      auto.
  - destruct (gt n highest);
      match goal with |- context [Math_max_from ?h rest] => destruct (IH h) as [-> | Hin] end;
      auto.
Qed.

Lemma Math_max_from_upper (values : list number) :
  Forall (fun v => is_nan v = false) values ->
  forall highest, is_nan highest = false ->
    (highest <=? Math_max_from highest values)%float = true /\
    forall v, In v values -> (v <=? Math_max_from highest values)%float = true.
Proof.
  induction 1 as [| n rest Hn Hrest IH]; intros highest Hh; simpl.
  - split; [now apply not_nan_leb_refl | tauto].
  - rewrite Hn.
    set (h1 := if Leibniz.eqb n zero && Leibniz.eqb highest neg_zero then zero else highest).
    assert (Hh1 : is_nan h1 = false /\ (highest <=? h1)%float = true).
    { unfold h1. destruct (Leibniz.eqb n zero && Leibniz.eqb highest neg_zero) eqn:Ez.
      - apply andb_true_iff in Ez. destruct Ez as [_ Ez]. apply Leibniz_eqb_eq in Ez.
        subst highest. split; reflexivity.
      - split; [exact Hh | now apply not_nan_leb_refl]. }
    destruct Hh1 as [Hnan1 Hle1]. unfold gt.
    destruct (h1 <? n)%float eqn:Elt.
    + destruct (IH n Hn) as [Hself Hothers]. split; [| intros v [<- | Hv]; auto].
      apply (leb_trans _ n); [| exact Hself].
      apply (leb_trans _ h1); [exact Hle1 | now apply ltb_leb].
    + destruct (IH h1 Hnan1) as [Hself Hothers]. split; [| intros v [<- | Hv]; auto].
      * now apply (leb_trans _ h1).
      * apply (leb_trans _ h1); [| exact Hself]. now apply not_ltb_leb.
Qed.

Lemma Math_max_greatest (values : list number) :
  values <> [] ->
  Forall (fun v => is_nan v = false) values ->
  greatest (Math_max values) values.
Proof.
  intros Hne Hnan. destruct values as [| n rest]; [congruence |]. clear Hne.
  assert (Hn : is_nan n = false) by now inversion Hnan.
  assert (Hrest : Forall (fun v => is_nan v = false) rest) by now inversion Hnan.
  assert (Hstart : Math_max (n :: rest) = Math_max_from n rest).
  { unfold Math_max. simpl. rewrite Hn.
    replace (Leibniz.eqb neg_infinity neg_zero) with false by reflexivity.
    rewrite andb_false_r. unfold gt.
    destruct (neg_infinity <? n)%float eqn:Elt; [reflexivity |].
    now rewrite (not_above_neg_infinity n Hn Elt). }
  rewrite Hstart. split.
  - destruct (Math_max_from_attained rest Hrest n) as [-> | Hin]; [now left | now right].
  - destruct (Math_max_from_upper rest Hrest n Hn) as [Hself Hothers].
    intros v [<- | Hv]; auto.
Qed.

Lemma Math_min_from_attained (values : list number) :
  Forall (fun v => is_nan v = false) values ->
  forall lowest,
    Math_min_from lowest values = lowest \/ In (Math_min_from lowest values) values.
Proof.
  induction 1 as [| n rest Hn Hrest IH]; intros lowest; simpl; [now left |].
  rewrite Hn.
  destruct (Leibniz.eqb n neg_zero && Leibniz.eqb lowest zero) eqn:Ez.
  - apply andb_true_iff in Ez. destruct Ez as [Ez _]. apply Leibniz_eqb_eq in Ez.
    destruct (lt n neg_zero);
      match goal with |- context [Math_min_from ?h rest] => destruct (IH h) as [-> | Hin] end;
      auto.
  - destruct (lt n lowest);
      match goal with |- context [Math_min_from ?h rest] => destruct (IH h) as [-> | Hin] end;
      auto.
Qed.

Lemma Math_min_from_lower (values : list number) :
  Forall (fun v => is_nan v = false) values ->
  forall lowest, is_nan lowest = false ->
    (Math_min_from lowest values <=? lowest)%float = true /\
    forall v, In v values -> (Math_min_from lowest values <=? v)%float = true.
Proof.
  induction 1 as [| n rest Hn Hrest IH]; intros lowest Hl; simpl.
  - split; [now apply not_nan_leb_refl | tauto].
  - rewrite Hn.
    set (l1 := if Leibniz.eqb n neg_zero && Leibniz.eqb lowest zero then neg_zero else lowest).
    assert (Hl1 : is_nan l1 = false /\ (l1 <=? lowest)%float = true).
    { unfold l1. destruct (Leibniz.eqb n neg_zero && Leibniz.eqb lowest zero) eqn:Ez.
      - apply andb_true_iff in Ez. destruct Ez as [_ Ez]. apply Leibniz_eqb_eq in Ez.
        subst lowest. split; reflexivity.
      - split; [exact Hl | now apply not_nan_leb_refl]. }
    destruct Hl1 as [Hnan1 Hle1]. unfold lt.
    destruct (n <? l1)%float eqn:Elt.
    + destruct (IH n Hn) as [Hself Hothers]. split; [| intros v [<- | Hv]; auto].
      apply (leb_trans _ n); [exact Hself |].
      apply (leb_trans _ l1); [now apply ltb_leb | exact Hle1].
    + destruct (IH l1 Hnan1) as [Hself Hothers]. split; [| intros v [<- | Hv]; auto].
      * now apply (leb_trans _ l1).
      * apply (leb_trans _ l1); [exact Hself |]. now apply not_ltb_leb.
Qed.

Lemma Math_min_least (values : list number) :
  values <> [] ->
  Forall (fun v => is_nan v = false) values ->
  least (Math_min values) values.
Proof.
  intros Hne Hnan. destruct values as [| n rest]; [congruence |]. clear Hne.
  assert (Hn : is_nan n = false) by now inversion Hnan.
  assert (Hrest : Forall (fun v => is_nan v = false) rest) by now inversion Hnan.
  assert (Hstart : Math_min (n :: rest) = Math_min_from n rest).
  { unfold Math_min. simpl. rewrite Hn.
    replace (Leibniz.eqb infinity zero) with false by reflexivity.
    rewrite andb_false_r. unfold lt.
    destruct (n <? infinity)%float eqn:Elt; [reflexivity |].
    now rewrite (not_below_infinity n Hn Elt). }
  rewrite Hstart. split.
  - destruct (Math_min_from_attained rest Hrest n) as [-> | Hin]; [now left | now right].
  - destruct (Math_min_from_lower rest Hrest n Hn) as [Hself Hothers].
    intros v [<- | Hv]; auto.
Qed.

Lemma Math_max_from_nonnegative (values : list number) :
  Forall (fun v => (zero <=? v)%float = true) values ->
  forall highest, resistance_like highest -> resistance_like (Math_max_from highest values).
Proof.
  induction 1 as [| n rest Hn Hrest IH]; intros highest Hh; simpl; [exact Hh |].
  rewrite (leb_not_nan_r _ _ Hn). apply IH.
  destruct (gt n _); [now right |].
  destruct (Leibniz.eqb n zero && Leibniz.eqb highest neg_zero); [| exact Hh].
  right. reflexivity.
Qed.

Lemma Math_min_from_nonnegative (values : list number) :
  Forall (fun v => (zero <=? v)%float = true) values ->
  forall lowest, support_like lowest -> support_like (Math_min_from lowest values).
Proof.
  induction 1 as [| n rest Hn Hrest IH]; intros lowest Hl; simpl; [exact Hl |].
  rewrite (leb_not_nan_r _ _ Hn). apply IH.
  destruct (lt n _); [now right |].
  destruct (Leibniz.eqb n neg_zero && Leibniz.eqb lowest zero); [| exact Hl].
  right. reflexivity.
Qed.

(** A NaN among the arguments makes the result NaN. *)
Lemma Math_max_from_NaN (values : list number) :
  Exists (fun v => is_nan v = true) values ->
  forall highest, Math_max_from highest values = nan.
Proof.
  induction 1 as [n rest Hn | n rest Hrest IH]; intros highest; simpl.
  - now rewrite Hn.
  - destruct (is_nan n); [reflexivity | apply IH].
Qed.

Lemma Math_min_from_NaN (values : list number) :
  Exists (fun v => is_nan v = true) values ->
  forall lowest, Math_min_from lowest values = nan.
Proof.
  induction 1 as [n rest Hn | n rest Hrest IH]; intros lowest; simpl.
  - now rewrite Hn.
  - destruct (is_nan n); [reflexivity | apply IH].
Qed.

Lemma all_numbers_or_NaN (values : list number) :
  Forall (fun v => is_nan v = false) values \/ Exists (fun v => is_nan v = true) values.
Proof.
  induction values as [| n rest [IH | IH]].
  - left. constructor.
  - destruct (is_nan n) eqn:En; [right; now left | left; now constructor].
  - right. now right.
Qed.

(** A result of [Math.max] or [Math.min] that is not NaN bounds every
    argument, and no argument is NaN. *)
Lemma Math_max_number (values : list number) :
  values <> [] -> is_nan (Math_max values) = false -> greatest (Math_max values) values.
Proof.
  intros Hne Hnum. destruct (all_numbers_or_NaN values) as [Hall | Hsome].
  - now apply Math_max_greatest.
  - unfold Math_max in Hnum. rewrite (Math_max_from_NaN values Hsome) in Hnum. discriminate.
Qed.

Lemma Math_min_number (values : list number) :
  values <> [] -> is_nan (Math_min values) = false -> least (Math_min values) values.
Proof.
  intros Hne Hnum. destruct (all_numbers_or_NaN values) as [Hall | Hsome].
  - now apply Math_min_least.
  - unfold Math_min in Hnum. rewrite (Math_min_from_NaN values Hsome) in Hnum. discriminate.
Qed.

(** A level that is a number is the extremum of its window. *)
Lemma Math_max_window_maximum (values : list number) :
  is_nan (Math_max values) = false -> window_maximum (Math_max values) values.
Proof.
  intros H. destruct values as [| v rest] eqn:E; [reflexivity |].
  apply Math_max_number; [discriminate | exact H].
Qed.

Lemma Math_min_window_minimum (values : list number) :
  is_nan (Math_min values) = false -> window_minimum (Math_min values) values.
Proof.
  intros H. destruct values as [| v rest] eqn:E; [reflexivity |].
  apply Math_min_number; [discriminate | exact H].
Qed.

(* ================================================================== *)
(** ** Arrays *)
(* ================================================================== *)

Lemma get_Some_iff {A} (arr : list A) (i : Z) :
  (exists a, get arr i = Some a) <-> 0 <= i < length arr.
Proof.
  unfold get, length. destruct (Z.ltb_spec i 0) as [Hneg | Hpos].
  - split; [intros [a Ha]; discriminate | lia].
  - split.
    + intros [a Ha]. assert (Hn : nth_error arr (Z.to_nat i) <> None) by congruence.
      apply nth_error_Some in Hn. lia.
    + intros Hi. destruct (nth_error arr (Z.to_nat i)) eqn:E; [eauto |].
      apply nth_error_None in E. lia.
Qed.

Lemma get_In {A} (arr : list A) (i : Z) (a : A) : get arr i = Some a -> In a arr.
Proof.
  unfold get. destruct (i <? 0); [discriminate |]. apply nth_error_In.
Qed.

Lemma In_slice {A} (arr : list A) (start end_ : Z) (a : A) :
  In a (slice arr start end_) -> In a arr.
Proof.
  unfold slice. intros H.
  rewrite <- (firstn_skipn (Z.to_nat (relative_index (length arr) start)) arr).
  apply in_or_app. right.
  match type of H with In _ (firstn ?n ?l) => rewrite <- (firstn_skipn n l) end.
  apply in_or_app. now left.
Qed.

Lemma slice_empty {A} (arr : list A) (i : Z) : slice arr i i = [].
Proof. unfold slice. now rewrite Z.sub_diag. Qed.

(** Inside the array and with a window that fits before [i], the slice
    of the loop body is the baseline window. *)
Lemma slice_baseline (candles : list KlineData.t) (period i : Z) :
  0 <= period <= i -> i <= length candles ->
  slice candles (i - period) i = baseline candles period i.
Proof.
  intros Hp Hi. unfold slice, baseline, relative_index.
  destruct (Z.ltb_spec (i - period) 0); [lia |].
  destruct (Z.ltb_spec i 0); [lia |].
  rewrite !Z.min_l by lia. f_equal. f_equal. lia.
Qed.

Lemma baseline_length (candles : list KlineData.t) (period i : Z) :
  0 <= period <= i -> i <= length candles ->
  length (baseline candles period i) = period.
Proof.
  intros Hp Hi. unfold baseline, length in *.
  rewrite length_firstn, length_skipn. lia.
Qed.

Lemma baseline_get (candles : list KlineData.t) (period i k : Z) :
  0 <= period <= i -> i <= length candles -> 0 <= k < period ->
  get (baseline candles period i) k = get candles (i - period + k).
Proof.
  intros Hp Hi Hk. unfold baseline, get.
  destruct (Z.ltb_spec k 0); [lia |].
  destruct (Z.ltb_spec (i - period + k) 0); [lia |].
  rewrite nth_error_firstn.
  destruct (Nat.ltb_spec (Z.to_nat k) (Z.to_nat period)); [| lia].
  rewrite nth_error_skipn. f_equal. lia.
Qed.

Lemma In_baseline (candles : list KlineData.t) (period i : Z) (c : KlineData.t) :
  In c (baseline candles period i) -> In c candles.
Proof.
  unfold baseline. intros H.
  rewrite <- (firstn_skipn (Z.to_nat (i - period)) candles).
  apply in_or_app. right.
  match type of H with In _ (firstn ?n ?l) => rewrite <- (firstn_skipn n l) end.
  apply in_or_app. now left.
Qed.

Lemma In_indices (n : nat) :
  forall (start j : Z), In j (indices start n) <-> start <= j < start + Z.of_nat n.
Proof.
  induction n as [| n IH]; intros start j; simpl.
  - split; [tauto | lia].
  - rewrite IH. lia.
Qed.

(** The output is the signals before index [i], then those of [i], then
    those after it. *)
Lemma indices_app (n m : nat) :
  forall start, indices start (n + m) = indices start n ++ indices (start + Z.of_nat n) m.
Proof.
  induction n as [| n IH]; intros start.
  - simpl. now rewrite Z.add_0_r.
  - change (indices start (S n + m)) with (start :: indices (start + 1) (n + m)).
    rewrite IH. simpl indices. simpl app. do 3 f_equal. lia.
Qed.

Lemma for_loop_ext {S} (body1 body2 : Z -> S -> Completion S) :
  (forall i s, body1 i s = body2 i s) ->
  forall n i s, for_loop n i body1 s = for_loop n i body2 s.
Proof.
  intros Hb. induction n as [| n IH]; intros i s; simpl; [reflexivity |].
  rewrite Hb. destruct (body2 i s); simpl; auto.
Qed.

(* ================================================================== *)
(** ** The loop *)
(* ================================================================== *)

Section Loop.

Variable candles : list KlineData.t.
Variable period : Z.

Lemma scan_step_pushed (i : Z) (signals : list BreakoutSignal.t) :
  scan_step candles period i signals =
  (_ <- deref (get candles i) ;; Return (signals ++ pushed candles period i)).
Proof.
  unfold pushed, scan_step. destruct (get candles i) as [c |]; simpl; [| reflexivity].
  destruct (gt (KlineData.close c) _); destruct (lt (KlineData.close c) _);
    simpl; rewrite <- ?app_assoc, ?app_nil_r; reflexivity.
Qed.

Lemma pushed_eq (i : Z) (c : KlineData.t) :
  get candles i = Some c ->
  pushed candles period i =
    (if gt (KlineData.close c) (resistance_at candles period i * c1_002)%float
     then [resistance_signal (resistance_at candles period i) c] else [])
    ++
    (if lt (KlineData.close c) (support_at candles period i * c0_998)%float
     then [support_signal (support_at candles period i) c] else []).
Proof.
  intros Hc. unfold pushed, scan_step, resistance_at, support_at. rewrite Hc. simpl.
  destruct (gt (KlineData.close c) _); destruct (lt (KlineData.close c) _); reflexivity.
Qed.

Lemma pushed_undefined (i : Z) : get candles i = None -> pushed candles period i = [].
Proof. intros Hc. unfold pushed, scan_step. rewrite Hc. reflexivity. Qed.

(** Inside the array the loop never throws and appends, step after
    step, what each index pushes. *)
Lemma for_loop_in_bounds (n : nat) :
  forall (i : Z) (signals : list BreakoutSignal.t),
    0 <= i -> i + Z.of_nat n <= length candles ->
    for_loop n i (scan_step candles period) signals =
    Return (signals ++ flat_map (pushed candles period) (indices i n)).
Proof.
  induction n as [| n IH]; intros i signals Hi Hn; simpl.
  - now rewrite app_nil_r.
  - rewrite scan_step_pushed.
    destruct (proj2 (get_Some_iff candles i)) as [c Hc]; [lia |].
    rewrite Hc. simpl. rewrite IH by lia. now rewrite app_assoc.
Qed.

(** With a window that is not negative the call returns the signals of
    the indices [period .. length - 1], in that order. *)
Lemma detectBreakout_scan :
  0 <= period ->
  detectBreakout candles period =
  Return (flat_map (pushed candles period)
            (indices period (Z.to_nat (length candles - period)))).
Proof.
  intros Hp. unfold detectBreakout. destruct (Z.ltb_spec (length candles) period) as [Hlt | Hge].
  - replace (Z.to_nat (length candles - period)) with O by lia. reflexivity.
  - unfold for_lt. rewrite for_loop_in_bounds by lia. reflexivity.
Qed.

(** A negative window: the first iteration reads [candles[period]],
    which is [undefined], and the property read throws. *)
Lemma detectBreakout_negative :
  period < 0 -> detectBreakout candles period = Throw TypeError.
Proof.
  intros Hp. unfold detectBreakout.
  destruct (Z.ltb_spec (length candles) period) as [Hlt | Hge]; [unfold length in Hlt; lia |].
  unfold for_lt. destruct (Z.to_nat (length candles - period)) as [| n] eqn:En.
  - unfold length in En. lia.
  - simpl. rewrite scan_step_pushed. unfold get.
    destruct (Z.ltb_spec period 0); [reflexivity | lia].
Qed.

Lemma In_detectBreakout (out : list BreakoutSignal.t) (s : BreakoutSignal.t) :
  0 <= period ->
  detectBreakout candles period = Return out ->
  (In s out <->
   exists i, period <= i < length candles /\ In s (pushed candles period i)).
Proof.
  intros Hp Hout. rewrite detectBreakout_scan in Hout by assumption.
  injection Hout as <-. rewrite in_flat_map. split.
  - intros [i [Hi Hs]]. exists i. apply In_indices in Hi. split; [lia | assumption].
  - intros [i [Hi Hs]]. exists i. split; [| assumption]. apply In_indices. lia.
Qed.

End Loop.

Lemma detectBreakout_split (candles : list KlineData.t) (period i : Z) :
  0 <= period <= i -> i < length candles ->
  detectBreakout candles period =
  Return (flat_map (pushed candles period) (indices period (Z.to_nat (i - period)))
          ++ pushed candles period i
          ++ flat_map (pushed candles period) (indices (i + 1) (Z.to_nat (length candles - i - 1)))).
Proof.
  intros Hp Hi. rewrite detectBreakout_scan by lia. f_equal.
  replace (Z.to_nat (length candles - period))
    with (Z.to_nat (i - period) + (1 + Z.to_nat (length candles - i - 1)))%nat by lia.
  rewrite indices_app, flat_map_app. f_equal.
  replace (period + Z.of_nat (Z.to_nat (i - period))) with i by lia.
  simpl. reflexivity.
Qed.

Lemma In_pushed (candles : list KlineData.t) (period i : Z) (s : BreakoutSignal.t) :
  In s (pushed candles period i) <->
  exists c, get candles i = Some c /\
    ((gt (KlineData.close c) (resistance_at candles period i * c1_002)%float = true /\
      s = resistance_signal (resistance_at candles period i) c) \/
     (lt (KlineData.close c) (support_at candles period i * c0_998)%float = true /\
      s = support_signal (support_at candles period i) c)).
Proof.
  destruct (get candles i) as [c |] eqn:Hc.
  - rewrite (pushed_eq candles period i c Hc), in_app_iff. split.
    + intros [Hr | Hs]; exists c; split; trivial.
      * left. destruct (gt (KlineData.close c) _); simpl in Hr; [| tauto].
        destruct Hr as [<- | []]. auto.
      * right. destruct (lt (KlineData.close c) _); simpl in Hs; [| tauto].
        destruct Hs as [<- | []]. auto.
    + intros [c' [Hc' [[Hr ->] | [Hs ->]]]]; injection Hc' as <-.
      * left. rewrite Hr. now left.
      * right. rewrite Hs. now left.
  - rewrite (pushed_undefined candles period i Hc). split; [intros [] |].
    intros [c [Hc' _]]. discriminate.
Qed.

Lemma pushed_stamp (candles : list KlineData.t) (period i : Z)
    (c : KlineData.t) (s : BreakoutSignal.t) :
  get candles i = Some c -> In s (pushed candles period i) ->
  BreakoutSignal.time s = KlineData.time c /\
  BreakoutSignal.price s = KlineData.close c.
Proof.
  intros Hc Hs. apply In_pushed in Hs.
  destruct Hs as [c' [Hc' [[_ ->] | [_ ->]]]]; injection (eq_trans (eq_sym Hc) Hc') as <-;
    split; reflexivity.
Qed.

(** What the loop pushes at an index of the array, read on the baseline
    window: the candle passed one of the two tests, against the extremum
    of the window. *)
Lemma pushed_on_baseline (candles : list KlineData.t) (period i : Z) (s : BreakoutSignal.t) :
  0 <= period <= i -> i < length candles ->
  In s (pushed candles period i) ->
  exists c, get candles i = Some c /\
    let highs := map KlineData.high (baseline candles period i) in
    let lows := map KlineData.low (baseline candles period i) in
    ((gt (KlineData.close c) (Math_max highs * c1_002)%float = true /\
      window_maximum (Math_max highs) highs /\
      s = resistance_signal (Math_max highs) c) \/
     (lt (KlineData.close c) (Math_min lows * c0_998)%float = true /\
      window_minimum (Math_min lows) lows /\
      s = support_signal (Math_min lows) c)).
Proof.
  intros Hp Hi Hs. apply In_pushed in Hs. destruct Hs as [c [Hc Hs]].
  exists c. split; [exact Hc |].
  unfold resistance_at, support_at in Hs.
  rewrite slice_baseline in Hs by lia.
  destruct Hs as [[Ht ->] | [Ht ->]]; [left | right];
    (split; [exact Ht | split; [| reflexivity]]).
  - apply Math_max_window_maximum. exact (gt_mul_number _ _ _ Ht).
  - apply Math_min_window_minimum. exact (lt_mul_number _ _ _ Ht).
Qed.

Lemma pushed_shape (candles : list KlineData.t) (period i : Z) :
  exists up down,
    pushed candles period i = up ++ down /\
    (up = [] \/ exists r, up = [r] /\ BreakoutSignal.type r = Resistance) /\
    (down = [] \/ exists s, down = [s] /\ BreakoutSignal.type s = Support).
Proof.
  destruct (get candles i) as [c |] eqn:Hc.
  - rewrite (pushed_eq candles period i c Hc).
    eexists. eexists. split; [reflexivity |]. split.
    + destruct (gt (KlineData.close c) _); [right; eexists; split; reflexivity | now left].
    + destruct (lt (KlineData.close c) _); [right; eexists; split; reflexivity | now left].
  - rewrite (pushed_undefined candles period i Hc). exists [], []. auto.
Qed.

Lemma emits_resistance_iff (candles : list KlineData.t) (period i : Z) (c : KlineData.t) :
  get candles i = Some c ->
  (emits_at candles period i Resistance <->
   gt (KlineData.close c) (resistance_at candles period i * c1_002)%float = true).
Proof.
  intros Hc. unfold emits_at. split.
  - intros [s [Hs Hty]]. apply In_pushed in Hs.
    destruct Hs as [c' [Hc' [[Hr ->] | [_ ->]]]]; [congruence | discriminate].
  - intros Hr. exists (resistance_signal (resistance_at candles period i) c).
    split; [| reflexivity]. apply In_pushed. exists c. auto.
Qed.

Lemma emits_support_iff (candles : list KlineData.t) (period i : Z) (c : KlineData.t) :
  get candles i = Some c ->
  (emits_at candles period i Support <->
   lt (KlineData.close c) (support_at candles period i * c0_998)%float = true).
Proof.
  intros Hc. unfold emits_at. split.
  - intros [s [Hs Hty]]. apply In_pushed in Hs.
    destruct Hs as [c' [Hc' [[_ ->] | [Hr ->]]]]; [discriminate | congruence].
  - intros Hr. exists (support_signal (support_at candles period i) c).
    split; [| reflexivity]. apply In_pushed. exists c. auto.
Qed.

Lemma levels_zero_window (candles : list KlineData.t) (i : Z) :
  resistance_at candles 0 i = neg_infinity /\ support_at candles 0 i = infinity.
Proof.
  unfold resistance_at, support_at. rewrite Z.sub_0_r, slice_empty. split; reflexivity.
Qed.

Lemma levels_nonnegative (candles : list KlineData.t) (period i : Z) :
  nonnegative_extremes candles ->
  resistance_like (resistance_at candles period i) /\
  support_like (support_at candles period i).
Proof.
  intros Hnn. unfold resistance_at, support_at, Math_max, Math_min. split.
  - apply Math_max_from_nonnegative; [| now left].
    apply Forall_map, Forall_forall. intros c Hc. apply Hnn. eapply In_slice, Hc.
  - apply Math_min_from_nonnegative; [| now left].
    apply Forall_map, Forall_forall. intros c Hc. apply Hnn. eapply In_slice, Hc.
Qed.

Lemma resistance_trigger_beyond (level x : number) :
  resistance_like level ->
  gt x (level * c1_002)%float = true -> gt x level = true.
Proof.
  unfold gt. intros [-> | Hnn] H; [exact H |].
  exact (leb_ltb_trans _ _ _ (mul_c1_002_ge level Hnn) H).
Qed.

Lemma support_trigger_beyond (level x : number) :
  support_like level ->
  lt x (level * c0_998)%float = true -> lt x level = true.
Proof.
  unfold lt. intros [-> | Hnn] H; [exact H |].
  exact (ltb_leb_trans _ _ _ H (mul_c0_998_le level Hnn)).
Qed.

(* ================================================================== *)
(** ** The store *)
(* ================================================================== *)

Lemma bind_run_Return {A B} (c : Run A) (k : A -> Run B) store a store' :
  c store = (Return a, store') -> bind_run c k store = k a store'.
Proof. intros H. unfold bind_run. rewrite H. reflexivity. Qed.

Lemma bind_run_Throw {A B} (c : Run A) (k : A -> Run B) store e store' :
  c store = (Throw e, store') -> bind_run c k store = (Throw e, store').
Proof. intros H. unfold bind_run. rewrite H. reflexivity. Qed.

Lemma nth_error_old (store rest : Store) r o :
  nth_error store r = Some o -> nth_error (store ++ rest) r = Some o.
Proof.
  intros H. rewrite nth_error_app1; [exact H |].
  apply nth_error_Some. rewrite H. discriminate.
Qed.

Lemma nth_error_first_new (store rest : Store) o :
  nth_error (store ++ o :: rest) (List.length store) = Some o.
Proof.
  rewrite nth_error_app2 by lia. rewrite Nat.sub_diag. reflexivity.
Qed.

Lemma candles_at_eq store r l :
  nth_error store r = Some (CandleArray l) -> candles_at r store = (Return l, store).
Proof. intros H. unfold candles_at, bind_run, read. rewrite H. reflexivity. Qed.

Lemma numbers_at_eq store r l :
  nth_error store r = Some (NumberArray l) -> numbers_at r store = (Return l, store).
Proof. intros H. unfold numbers_at, bind_run, read. rewrite H. reflexivity. Qed.

Lemma signals_at_eq store r l :
  nth_error store r = Some (SignalArray l) -> signals_at r store = (Return l, store).
Proof. intros H. unfold signals_at, bind_run, read. rewrite H. reflexivity. Qed.

Lemma length_at_eq store r l :
  nth_error store r = Some (CandleArray l) -> length_at r store = (Return (length l), store).
Proof. intros H. unfold length_at. rewrite (bind_run_Return _ _ _ _ _ (candles_at_eq _ _ _ H)). reflexivity. Qed.

Lemma get_at_eq store r l i :
  nth_error store r = Some (CandleArray l) -> get_at r i store = (Return (get l i), store).
Proof. intros H. unfold get_at. rewrite (bind_run_Return _ _ _ _ _ (candles_at_eq _ _ _ H)). reflexivity. Qed.

Lemma slice_at_eq store r l a b :
  nth_error store r = Some (CandleArray l) ->
  slice_at r a b store = (Return (List.length store), store ++ [CandleArray (slice l a b)]).
Proof. intros H. unfold slice_at. rewrite (bind_run_Return _ _ _ _ _ (candles_at_eq _ _ _ H)). reflexivity. Qed.

Lemma map_at_eq f store r l :
  nth_error store r = Some (CandleArray l) ->
  map_at f r store = (Return (List.length store), store ++ [NumberArray (map f l)]).
Proof. intros H. unfold map_at. rewrite (bind_run_Return _ _ _ _ _ (candles_at_eq _ _ _ H)). reflexivity. Qed.

Lemma Math_max_at_eq store r l :
  nth_error store r = Some (NumberArray l) -> Math_max_at r store = (Return (Math_max l), store).
Proof. intros H. unfold Math_max_at. rewrite (bind_run_Return _ _ _ _ _ (numbers_at_eq _ _ _ H)). reflexivity. Qed.

Lemma Math_min_at_eq store r l :
  nth_error store r = Some (NumberArray l) -> Math_min_at r store = (Return (Math_min l), store).
Proof. intros H. unfold Math_min_at. rewrite (bind_run_Return _ _ _ _ _ (numbers_at_eq _ _ _ H)). reflexivity. Qed.

(** [push] writes the array it is applied to, and nothing else. *)
Lemma push_at_eq (store rest : Store) acc s :
  push_at (List.length store) s (store ++ SignalArray acc :: rest) =
  (Return tt, store ++ SignalArray (acc ++ [s]) :: rest).
Proof.
  unfold push_at.
  rewrite (bind_run_Return _ _ _ _ _ (signals_at_eq _ _ _ (nth_error_first_new store rest _))).
  unfold write. f_equal.
  rewrite firstn_app, firstn_all, Nat.sub_diag. simpl firstn. rewrite app_nil_r.
  f_equal.
  rewrite skipn_app, skipn_all2 by lia.
  replace (S (List.length store) - List.length store)%nat with 1%nat by lia.
  reflexivity.
Qed.

(** One turn of the loop reads [candles], allocates its three arrays
    behind the ones that exist and writes [signals] only: on [signals] it
    does what [scan_step] does. *)
Lemma scan_step_run_spec (store : Store) (candles : Ref) (cs : list KlineData.t)
    (period i : Z) (acc : list BreakoutSignal.t) (rest : list Object) :
  nth_error store candles = Some (CandleArray cs) ->
  exists rest',
    scan_step_run candles period (List.length store) i (store ++ SignalArray acc :: rest) =
    match scan_step cs period i acc with
    | Return acc' => (Return tt, store ++ SignalArray acc' :: rest')
    | Throw e => (Throw e, store ++ SignalArray acc :: rest')
    end.
Proof.
  intros Hc.
  set (w := CandleArray (slice cs (i - period) i)).
  set (h := NumberArray (map KlineData.high (slice cs (i - period) i))).
  set (l := NumberArray (map KlineData.low (slice cs (i - period) i))).
  exists (rest ++ [w; h; l]).
  set (s0 := store ++ SignalArray acc :: rest).
  assert (H0 : nth_error s0 candles = Some (CandleArray cs))
    by (apply nth_error_old; exact Hc).
  unfold scan_step_run.
  rewrite (bind_run_Return _ _ _ _ _ (slice_at_eq _ _ _ _ _ H0)). fold w.
  assert (H1 : nth_error (s0 ++ [w]) candles = Some (CandleArray cs))
    by (apply nth_error_old; exact H0).
  rewrite (bind_run_Return _ _ _ _ _ (get_at_eq _ _ _ _ H1)).
  assert (Hw1 : nth_error (s0 ++ [w]) (List.length s0) = Some w)
    by apply nth_error_first_new.
  rewrite (bind_run_Return _ _ _ _ _ (map_at_eq _ _ _ _ Hw1)). fold h.
  assert (Hw2 : nth_error ((s0 ++ [w]) ++ [h]) (List.length s0) = Some w)
    by (apply nth_error_old; exact Hw1).
  rewrite (bind_run_Return _ _ _ _ _ (map_at_eq _ _ _ _ Hw2)). fold l.
  assert (Hh : nth_error (((s0 ++ [w]) ++ [h]) ++ [l]) (List.length (s0 ++ [w])) = Some h)
    by (apply nth_error_old; apply nth_error_first_new).
  rewrite (bind_run_Return _ _ _ _ _ (Math_max_at_eq _ _ _ Hh)).
  assert (Hl : nth_error (((s0 ++ [w]) ++ [h]) ++ [l]) (List.length ((s0 ++ [w]) ++ [h])) = Some l)
    by apply nth_error_first_new.
  rewrite (bind_run_Return _ _ _ _ _ (Math_min_at_eq _ _ _ Hl)).
  assert (Hs : ((s0 ++ [w]) ++ [h]) ++ [l] = store ++ SignalArray acc :: (rest ++ [w; h; l])).
  { unfold s0. rewrite <- !app_assoc. reflexivity. }
  rewrite Hs.
  unfold scan_step.
  destruct (get cs i) as [c |]; cbn [deref_run deref bind].
  2: reflexivity.
  unfold bind_run at 1. unfold unit_run at 1.
  destruct (gt (KlineData.close c) _).
  - unfold bind_run. rewrite push_at_eq.
    destruct (lt (KlineData.close c) _).
    + rewrite push_at_eq. reflexivity.
    + reflexivity.
  - unfold bind_run. unfold unit_run at 1.
    destruct (lt (KlineData.close c) _).
    + rewrite push_at_eq. reflexivity.
    + reflexivity.
Qed.

(** The loop reads the length of [candles] before every turn and finds
    it as it was: with fuel for one evaluation of the condition more
    than there are turns, it ends as the loop of [detectBreakout]. *)
Lemma for_run_spec (store : Store) (candles : Ref) (cs : list KlineData.t)
    (period : Z) (fuel : nat) :
  nth_error store candles = Some (CandleArray cs) ->
  forall i acc rest,
  (Z.to_nat (length cs - i) < fuel)%nat ->
  exists acc' rest',
    for_run fuel i (fun i => len <~ length_at candles ;; unit_run (i <? len))
      (scan_step_run candles period (List.length store))
      (store ++ SignalArray acc :: rest) =
    (match for_loop (Z.to_nat (length cs - i)) i (scan_step cs period) acc with
     | Return _ => Return (Some tt)
     | Throw e => Throw e
     end, store ++ SignalArray acc' :: rest') /\
    (forall out,
       for_loop (Z.to_nat (length cs - i)) i (scan_step cs period) acc = Return out ->
       acc' = out).
Proof.
  intros Hc. induction fuel as [| fuel IH]; intros i acc rest Hfuel; [lia |].
  cbn [for_run].
  assert (H0 : nth_error (store ++ SignalArray acc :: rest) candles = Some (CandleArray cs))
    by (apply nth_error_old; exact Hc).
  rewrite (bind_run_Return _ _ _ (i <? length cs) _
             (bind_run_Return _ _ _ _ _ (length_at_eq _ _ _ H0))).
  destruct (Z.ltb_spec i (length cs)) as [Hlt | Hge].
  - replace (Z.to_nat (length cs - i)) with (S (Z.to_nat (length cs - (i + 1)))) in * by lia.
    cbn [for_loop].
    destruct (scan_step_run_spec store candles cs period i acc rest Hc) as [rest1 H1].
    destruct (scan_step cs period i acc) as [acc1 | e].
    + rewrite (bind_run_Return _ _ _ _ _ H1). cbn [bind].
      apply IH. lia.
    + rewrite (bind_run_Throw _ _ _ _ _ H1). cbn [bind].
      exists acc, rest1. split; [reflexivity | discriminate].
  - replace (Z.to_nat (length cs - i)) with O by lia.
    exists acc, rest. split; [reflexivity |]. simpl. congruence.
Qed.

(** A call leaves every array that existed as it was, allocates the array
    it returns at the first free address, and fills it as
    [detectBreakout] says. *)
Lemma detectBreakout_run_spec (store : Store) (candles : Ref) (cs : list KlineData.t)
    (period : Z) (fuel : nat) :
  nth_error store candles = Some (CandleArray cs) ->
  (Z.to_nat (length cs - period) < fuel)%nat ->
  exists acc rest,
    detectBreakout_run fuel candles period store =
    (match detectBreakout cs period with
     | Return _ => Return (Some (List.length store))
     | Throw e => Throw e
     end, store ++ SignalArray acc :: rest) /\
    (forall out, detectBreakout cs period = Return out -> acc = out).
Proof.
  intros Hc Hfuel. unfold detectBreakout_run, detectBreakout.
  unfold bind_run at 1. unfold alloc at 1.
  assert (H0 : nth_error (store ++ [SignalArray []]) candles = Some (CandleArray cs))
    by (apply nth_error_old; exact Hc).
  rewrite (bind_run_Return _ _ _ _ _ (length_at_eq _ _ _ H0)).
  destruct (length cs <? period).
  - exists [], []. split; [reflexivity |]. congruence.
  - unfold for_lt.
    destruct (for_run_spec store candles cs period fuel Hc period [] [] Hfuel)
      as (acc & rest & Hrun & Hout).
    exists acc, rest. split; [| exact Hout].
    unfold bind_run at 1. cbn [app] in Hrun |- *. rewrite Hrun.
    destruct (for_loop _ _ _ _); reflexivity.
Qed.

(* ================================================================== *)
(** ** The examples of the specification *)
(* ================================================================== *)

Example example_confirmed :
  detectBreakout (flat20 ++ [KlineData.mk 20 101.5 103 102.5 101 1]) 20
  = Return [BreakoutSignal.mk 20 Resistance 102.5 true].
Proof. vm_compute. reflexivity. Qed.

Example example_unconfirmed :
  detectBreakout (flat20 ++ [KlineData.mk 20 99.5 101 100.5 99 1]) 20
  = Return [BreakoutSignal.mk 20 Resistance 100.5 false].
Proof. vm_compute. reflexivity. Qed.

Example example_19_candles :
  detectBreakout (firstn 19 flat20) 20 = Return [].
Proof. vm_compute. reflexivity. Qed.

(* ================================================================== *)
(** ** Threshold correctness *)
(* ================================================================== *)

(** C1.  With a positive window, at least [period + 1] candles and an
    index [i] in [period .. length - 1], a resistance signal is emitted at
    index [i] exactly when [candles[i].close > max(high) * 1.002], and a
    support signal exactly when [candles[i].close < min(low) * 0.998],
    the extrema being taken over the candles [i - period .. i - 1]:
    [Math.max] and [Math.min] of their highs and lows, which are the
    greatest high and the least low when none of them is NaN.  The
    signals emitted at [i] are a block of the returned sequence; when
    candle times are unique they are the returned signals that carry the
    time of candle [i]. *)
Theorem threshold_correctness (candles : list KlineData.t) (period i : Z) (c : KlineData.t) :
  0 < period ->
  period + 1 <= length candles ->
  period <= i <= length candles - 1 ->
  get candles i = Some c ->
  let highs := map KlineData.high (baseline candles period i) in
  let lows := map KlineData.low (baseline candles period i) in
  let resistance := Math_max highs in
  let support := Math_min lows in
  (emits_at candles period i Resistance <->
     gt (KlineData.close c) (resistance * c1_002)%float = true) /\
  (emits_at candles period i Support <->
     lt (KlineData.close c) (support * c0_998)%float = true) /\
  (Forall (fun v => is_nan v = false) highs -> greatest resistance highs) /\
  (Forall (fun v => is_nan v = false) lows -> least support lows) /\
  exists out before after,
    detectBreakout candles period = Return out /\
    out = before ++ pushed candles period i ++ after /\
    (unique_times candles ->
     forall ty, signal_at_time out (KlineData.time c) ty <-> emits_at candles period i ty).
Proof.
  intros Hp Hlen Hi Hc highs lows resistance support.
  assert (Hr : resistance = resistance_at candles period i).
  { unfold resistance, highs, resistance_at. now rewrite slice_baseline by lia. }
  assert (Hs : support = support_at candles period i).
  { unfold support, lows, support_at. now rewrite slice_baseline by lia. }
  assert (Hwindow : baseline candles period i <> []).
  { intros Hnil. pose proof (baseline_length candles period i ltac:(lia) ltac:(lia)) as Hl.
    rewrite Hnil in Hl. unfold length in Hl. simpl in Hl. lia. }
  split; [rewrite Hr; now apply emits_resistance_iff |].
  split; [rewrite Hs; now apply emits_support_iff |].
  split; [| split].
  - apply Math_max_greatest. unfold highs.
    destruct (baseline candles period i); [congruence | discriminate].
  - apply Math_min_least. unfold lows.
    destruct (baseline candles period i); [congruence | discriminate].
  - assert (Hout := detectBreakout_split candles period i ltac:(lia) ltac:(lia)).
    eexists. eexists. eexists. split; [exact Hout |].
    split; [reflexivity |]. intros Huniq ty. split.
    + intros [s [Hin [Htime Hty]]].
      apply (In_detectBreakout candles period _ s ltac:(lia) Hout) in Hin.
      destruct Hin as [j [Hj Hpj]].
      destruct (proj2 (get_Some_iff candles j)) as [cj Hcj]; [lia |].
      destruct (pushed_stamp candles period j cj s Hcj Hpj) as [Htj _].
      assert (j = i) by (apply (Huniq j i cj c); congruence).
      subst j. exists s. auto.
    + intros [s [Hpi Hty]]. exists s.
      destruct (pushed_stamp candles period i c s Hc Hpi) as [Hti _].
      repeat split; trivial.
      apply (In_detectBreakout candles period _ s ltac:(lia) Hout).
      exists i. split; [lia | assumption].
Qed.

Lemma threshold_correctness_witness :
  let highs := map KlineData.high (baseline breakout_21 20 20) in
  let lows := map KlineData.low (baseline breakout_21 20 20) in
  (emits_at breakout_21 20 20 Resistance <->
     gt 102.5 (Math_max highs * c1_002)%float = true) /\
  (emits_at breakout_21 20 20 Support <->
     lt 102.5 (Math_min lows * c0_998)%float = true) /\
  (Forall (fun v => is_nan v = false) highs -> greatest (Math_max highs) highs) /\
  (Forall (fun v => is_nan v = false) lows -> least (Math_min lows) lows) /\
  exists out before after,
    detectBreakout breakout_21 20 = Return out /\
    out = before ++ pushed breakout_21 20 20 ++ after /\
    (unique_times breakout_21 ->
     forall ty, signal_at_time out 20%float ty <-> emits_at breakout_21 20 20 ty).
Proof.
  apply (threshold_correctness breakout_21 20 20 (KlineData.mk 20 101.5 103 102.5 101 1)).
  - lia.
  - vm_compute. discriminate.
  - vm_compute. split; discriminate.
  - vm_compute. reflexivity.
Defined.

(* ================================================================== *)
(** ** Confirmation *)
(* ================================================================== *)

(** C2.  Every returned signal was pushed at an index [i] of the input,
    on the candle [c] that passed the test of its direction there.  The
    level of a resistance signal is the greatest high of the candles
    [i - period .. i - 1] (for a window of no candle, [-Infinity]); the
    signal is confirmed exactly when the open and the close of [c] are
    both strictly above that level.  The level of a support signal is
    the least low of those candles (for a window of no candle,
    [+Infinity]); the signal is confirmed exactly when the open and the
    close of [c] are both strictly below it.  The level is the extremum
    itself, not the extremum scaled by 1.002 or 0.998. *)
Theorem confirmation_correctness (candles : list KlineData.t) (period : Z)
    (out : list BreakoutSignal.t) (s : BreakoutSignal.t) :
  detectBreakout candles period = Return out ->
  In s out ->
  exists i c,
    period <= i < length candles /\ get candles i = Some c /\
    In s (pushed candles period i) /\
    triggers (BreakoutSignal.type s) c (baseline candles period i) /\
    let highs := map KlineData.high (baseline candles period i) in
    let lows := map KlineData.low (baseline candles period i) in
    match BreakoutSignal.type s with
    | Resistance =>
        exists resistance,
          resistance = Math_max highs /\
          window_maximum resistance highs /\
          (BreakoutSignal.confirmed s = true <->
           gt (KlineData.open c) resistance = true /\
           gt (KlineData.close c) resistance = true)
    | Support =>
        exists support,
          support = Math_min lows /\
          window_minimum support lows /\
          (BreakoutSignal.confirmed s = true <->
           lt (KlineData.open c) support = true /\
           lt (KlineData.close c) support = true)
    end.
Proof.
  intros Hout Hs.
  assert (Hp : 0 <= period).
  { destruct (Z.lt_ge_cases period 0) as [Hneg | Hge]; [| exact Hge].
    rewrite detectBreakout_negative in Hout by exact Hneg. discriminate. }
  apply (In_detectBreakout candles period out s Hp Hout) in Hs.
  destruct Hs as [i [Hi Hpi]].
  destruct (pushed_on_baseline candles period i s ltac:(lia) ltac:(lia) Hpi)
    as [c [Hc Hcase]].
  exists i, c.
  split; [lia |]. split; [exact Hc |]. split; [exact Hpi |].
  cbv zeta in Hcase |- *.
  destruct Hcase as [(Ht & Hm & ->) | (Ht & Hm & ->)];
    unfold resistance_signal, support_signal;
    cbn [BreakoutSignal.type BreakoutSignal.confirmed triggers];
    (split; [exact Ht |]); eexists; (split; [reflexivity |]);
    (split; [exact Hm |]); rewrite andb_true_iff; tauto.
Qed.

Lemma confirmation_correctness_witness :
  exists i c,
    20 <= i < length (flat20 ++ [KlineData.mk 20 99.5 101 100.5 99 1]) /\
    get (flat20 ++ [KlineData.mk 20 99.5 101 100.5 99 1]) i = Some c /\
    In (BreakoutSignal.mk 20 Resistance 100.5 false)
       (pushed (flat20 ++ [KlineData.mk 20 99.5 101 100.5 99 1]) 20 i) /\
    triggers Resistance c (baseline (flat20 ++ [KlineData.mk 20 99.5 101 100.5 99 1]) 20 i) /\
    exists resistance,
      resistance =
        Math_max (map KlineData.high
                    (baseline (flat20 ++ [KlineData.mk 20 99.5 101 100.5 99 1]) 20 i)) /\
      window_maximum resistance
        (map KlineData.high
           (baseline (flat20 ++ [KlineData.mk 20 99.5 101 100.5 99 1]) 20 i)) /\
      (false = true <->
       gt (KlineData.open c) resistance = true /\
       gt (KlineData.close c) resistance = true).
Proof.
  apply (confirmation_correctness (flat20 ++ [KlineData.mk 20 99.5 101 100.5 99 1]) 20
           [BreakoutSignal.mk 20 Resistance 100.5 false]
           (BreakoutSignal.mk 20 Resistance 100.5 false)).
  - vm_compute. reflexivity.
  - simpl. left. reflexivity.
Defined.

(** An open (100.125) between the level (100) and the scaled threshold (100.2)
    confirms: the confirmation is against the level. *)
Example confirmed_below_threshold :
  detectBreakout (flat20 ++ [KlineData.mk 20 100.125 101 100.5 100 1]) 20
  = Return [BreakoutSignal.mk 20 Resistance 100.5 true].
Proof. vm_compute. reflexivity. Qed.

(** C8.  When no high and no low is negative, the close of a candle that
    triggers a resistance signal is already above the (unscaled)
    resistance level, so the signal is confirmed exactly when the open
    is above that level; and the close of a candle that triggers a
    support signal is already below the support level, so the signal is
    confirmed exactly when the open is below it. *)
Theorem confirmation_by_open (candles : list KlineData.t) (period : Z)
    (out : list BreakoutSignal.t) (s : BreakoutSignal.t) :
  nonnegative_extremes candles ->
  detectBreakout candles period = Return out ->
  In s out ->
  exists i c,
    period <= i < length candles /\ get candles i = Some c /\
    In s (pushed candles period i) /\
    match BreakoutSignal.type s with
    | Resistance =>
        gt (KlineData.close c) (resistance_at candles period i) = true /\
        BreakoutSignal.confirmed s = gt (KlineData.open c) (resistance_at candles period i)
    | Support =>
        lt (KlineData.close c) (support_at candles period i) = true /\
        BreakoutSignal.confirmed s = lt (KlineData.open c) (support_at candles period i)
    end.
Proof.
  intros Hnn Hout Hs.
  assert (Hp : 0 <= period).
  { destruct (Z.lt_ge_cases period 0) as [Hneg | Hge]; [| exact Hge].
    rewrite detectBreakout_negative in Hout by exact Hneg. discriminate. }
  apply (In_detectBreakout candles period out s Hp Hout) in Hs.
  destruct Hs as [i [Hi Hpi]]. pose proof Hpi as Hpi'. apply In_pushed in Hpi'.
  destruct (levels_nonnegative candles period i Hnn) as [Hr Hl].
  destruct Hpi' as [c [Hc [[Htrig ->] | [Htrig ->]]]]; exists i, c;
    (split; [lia | split; [exact Hc | split; [exact Hpi |]]]);
    unfold resistance_signal, support_signal;
    cbn [BreakoutSignal.type BreakoutSignal.confirmed].
  - pose proof (resistance_trigger_beyond _ _ Hr Htrig) as Hclose.
    split; [exact Hclose |]. now rewrite Hclose.
  - pose proof (support_trigger_beyond _ _ Hl Htrig) as Hclose.
    split; [exact Hclose |]. now rewrite Hclose.
Qed.

Lemma confirmation_by_open_witness :
  exists i c,
    1 <= i < length rising_2 /\ get rising_2 i = Some c /\
    In (BreakoutSignal.mk 1 Resistance 102.5 true) (pushed rising_2 1 i) /\
    gt (KlineData.close c) (resistance_at rising_2 1 i) = true /\
    true = gt (KlineData.open c) (resistance_at rising_2 1 i).
Proof.
  apply (confirmation_by_open rising_2 1
           [BreakoutSignal.mk 1 Resistance 102.5 true]
           (BreakoutSignal.mk 1 Resistance 102.5 true)).
  - intros c [<- | [<- | []]]; split; vm_compute; reflexivity.
  - vm_compute. reflexivity.
  - simpl. left. reflexivity.
Defined.

(** With negative prices the close can pass the scaled threshold without
    passing the level: here the level is -100, the threshold about
    -100.2, the close -100.125 and the open -99, and the resistance
    signal is not confirmed although the open is above the level. *)
Example negative_prices_need_close :
  detectBreakout
    [KlineData.mk 0 (-100) (-100) (-100) (-100) 1;
     KlineData.mk 1 (-99) (-99) (-100.125) (-101) 1] 1
  = Return [BreakoutSignal.mk 1 Resistance (-100.125) false;
            BreakoutSignal.mk 1 Support (-100.125) false].
Proof. vm_compute. reflexivity. Qed.

(* ================================================================== *)
(** ** Insufficient history *)
(* ================================================================== *)

(** C3.  A candle sequence shorter than the window gives the empty
    sequence of signals, returned normally (no exception). *)
Theorem detectBreakout_short (candles : list KlineData.t) (period : Z) :
  length candles < period ->
  detectBreakout candles period = Return [].
Proof.
  intros Hlt. unfold detectBreakout.
  apply Z.ltb_lt in Hlt. now rewrite Hlt.
Qed.

Lemma detectBreakout_short_witness :
  detectBreakout (firstn 19 flat20) 20 = Return [].
Proof.
  apply (detectBreakout_short (firstn 19 flat20) 20). vm_compute. reflexivity.
Defined.

(** C9.  A candle sequence of exactly [period] candles gives the empty
    sequence too: the guard lets it through, but the first index the loop
    would test is [period], which is already the length. *)
Theorem detectBreakout_exact_length (candles : list KlineData.t) (period : Z) :
  length candles = period ->
  detectBreakout candles period = Return [].
Proof.
  intros Heq. unfold detectBreakout, for_lt.
  rewrite Heq, Z.ltb_irrefl, Z.sub_diag. reflexivity.
Qed.

Lemma detectBreakout_exact_length_witness :
  detectBreakout flat20 20 = Return [].
Proof.
  apply (detectBreakout_exact_length flat20 20). vm_compute. reflexivity.
Defined.

(* ================================================================== *)
(** ** A window that is zero or negative *)
(* ================================================================== *)

(** With window zero and a single ordinary candle the call returns two
    signals: it neither throws nor returns the empty sequence. *)
Lemma zero_window_counterexample :
  detectBreakout lone_candle 0 =
    Return [BreakoutSignal.mk 0 Resistance 95 true; BreakoutSignal.mk 0 Support 95 true] /\
  ~ fails_fast_or_noop (detectBreakout lone_candle 0).
Proof.
  assert (H : detectBreakout lone_candle 0 =
              Return [BreakoutSignal.mk 0 Resistance 95 true; BreakoutSignal.mk 0 Support 95 true])
    by (vm_compute; reflexivity).
  split; [exact H |]. rewrite H. intros [Hnil | [e He]]; discriminate.
Qed.

(** C4, as the code has it.  The window is not validated.  A negative
    window makes the first iteration read [candles[period]], which lies
    outside the sequence and is [undefined]; reading its [close] throws a
    [TypeError], so the call fails without a result.  A zero window is
    neither an error nor a no-op: every index [0 .. length - 1] is tested
    against the levels of an empty window, [-Infinity] and [+Infinity],
    so a candle whose close is above [-Infinity] yields a resistance
    signal and one whose close is below [+Infinity] a support signal. *)
Theorem invalid_window (candles : list KlineData.t) (period : Z) :
  period <= 0 ->
  (period < 0 ->
     get candles period = None /\
     detectBreakout candles period = Throw TypeError) /\
  (period = 0 ->
     exists out,
       detectBreakout candles period = Return out /\
       forall i c, get candles i = Some c ->
         (gt (KlineData.close c) neg_infinity = true ->
            In (BreakoutSignal.mk (KlineData.time c) Resistance (KlineData.close c)
                  (gt (KlineData.open c) neg_infinity)) out) /\
         (lt (KlineData.close c) infinity = true ->
            In (BreakoutSignal.mk (KlineData.time c) Support (KlineData.close c)
                  (lt (KlineData.open c) infinity)) out)).
Proof.
  intros Hp. split.
  - intros Hneg. split; [| now apply detectBreakout_negative].
    unfold get. destruct (Z.ltb_spec period 0); [reflexivity | lia].
  - intros ->. eexists. split; [apply detectBreakout_scan; lia |].
    intros i c Hc.
    assert (Hi : 0 <= i < length candles) by (apply get_Some_iff; eauto).
    destruct (levels_zero_window candles i) as [Hr Hs].
    split; intros Hclose; apply in_flat_map; exists i;
      (split; [apply In_indices; lia |]); apply In_pushed; exists c;
      (split; [exact Hc |]); rewrite Hr, Hs.
    + left. split; [exact Hclose |].
      unfold resistance_signal. now rewrite Hclose.
    + right. split; [exact Hclose |].
      unfold support_signal. now rewrite Hclose.
Qed.

Lemma invalid_window_witness :
  (-1 < 0 ->
     get lone_candle (-1) = None /\
     detectBreakout lone_candle (-1) = Throw TypeError) /\
  (-1 = 0 ->
     exists out,
       detectBreakout lone_candle (-1) = Return out /\
       forall i c, get lone_candle i = Some c ->
         (gt (KlineData.close c) neg_infinity = true ->
            In (BreakoutSignal.mk (KlineData.time c) Resistance (KlineData.close c)
                  (gt (KlineData.open c) neg_infinity)) out) /\
         (lt (KlineData.close c) infinity = true ->
            In (BreakoutSignal.mk (KlineData.time c) Support (KlineData.close c)
                  (lt (KlineData.open c) infinity)) out)).
Proof.
  apply (invalid_window lone_candle (-1)). lia.
Defined.

(* ================================================================== *)
(** ** Order of the output *)
(* ================================================================== *)

Lemma StronglySorted_append {A} (R : A -> A -> Prop) (xs ys : list A) :
  StronglySorted R xs -> StronglySorted R ys ->
  (forall x y, In x xs -> In y ys -> R x y) ->
  StronglySorted R (xs ++ ys).
Proof.
  intros Hxs Hys Hcross. induction Hxs as [| x xs Hxs IH Hx]; simpl; [exact Hys |].
  constructor.
  - apply IH. intros a b Ha Hb. apply Hcross; [now right | exact Hb].
  - apply Forall_app. split; [exact Hx |].
    apply Forall_forall. intros b Hb. apply Hcross; [now left | exact Hb].
Qed.

Lemma pushed_in_order (candles : list KlineData.t) (period i : Z) :
  (forall c, In c candles -> is_nan (KlineData.time c) = false) ->
  StronglySorted in_order (pushed candles period i).
Proof.
  intros Hnan. destruct (get candles i) as [c |] eqn:Hc.
  - rewrite (pushed_eq candles period i c Hc).
    destruct (gt (KlineData.close c) _); destruct (lt (KlineData.close c) _); simpl;
      repeat constructor.
    simpl. apply not_nan_leb_refl, Hnan. eapply get_In, Hc.
  - rewrite (pushed_undefined candles period i Hc). constructor.
Qed.

Lemma pushed_across (candles : list KlineData.t) (period i j : Z)
    (si sj : BreakoutSignal.t) :
  increasing_times candles -> i < j ->
  In si (pushed candles period i) -> In sj (pushed candles period j) ->
  lt (BreakoutSignal.time si) (BreakoutSignal.time sj) = true.
Proof.
  intros [_ Hinc] Hij Hsi Hsj.
  pose proof Hsi as Hi. apply In_pushed in Hi. destruct Hi as [ci [Hci _]].
  pose proof Hsj as Hj. apply In_pushed in Hj. destruct Hj as [cj [Hcj _]].
  destruct (pushed_stamp candles period i ci si Hci Hsi) as [-> _].
  destruct (pushed_stamp candles period j cj sj Hcj Hsj) as [-> _].
  now apply (Hinc i j).
Qed.

Lemma scan_in_order (candles : list KlineData.t) (period : Z) (n : nat) :
  increasing_times candles ->
  forall start,
    StronglySorted in_order (flat_map (pushed candles period) (indices start n)).
Proof.
  intros Hinc. induction n as [| n IH]; intros start; simpl; [constructor |].
  apply StronglySorted_append.
  - apply pushed_in_order, Hinc.
  - apply IH.
  - intros x y Hx Hy. apply in_flat_map in Hy. destruct Hy as [j [Hj Hy]].
    apply In_indices in Hj.
    assert (Hlt := pushed_across candles period start j x y Hinc ltac:(lia) Hx Hy).
    unfold lt in Hlt. split; [now apply ltb_leb |].
    rewrite (ltb_not_eqb _ _ Hlt). discriminate.
Qed.

(** C5.  When the candle times strictly increase, every signal of the
    output is in order with every later one: times do not decrease, and
    two signals of equal time are a resistance signal followed by a
    support signal.  Signals pushed at two distinct indices never have
    equal times. *)
Theorem output_order (candles : list KlineData.t) (period : Z)
    (out : list BreakoutSignal.t) :
  increasing_times candles ->
  detectBreakout candles period = Return out ->
  StronglySorted in_order out /\
  (forall i j si sj,
     i <> j ->
     In si (pushed candles period i) -> In sj (pushed candles period j) ->
     (BreakoutSignal.time si =? BreakoutSignal.time sj)%float = false).
Proof.
  intros Hinc Hout. split.
  - destruct (Z.lt_ge_cases period 0) as [Hneg | Hge].
    + rewrite detectBreakout_negative in Hout by exact Hneg. discriminate.
    + rewrite detectBreakout_scan in Hout by exact Hge. injection Hout as <-.
      now apply scan_in_order.
  - intros i j si sj Hij Hsi Hsj.
    destruct (Z.lt_total i j) as [Hlt | [Heq | Hgt]]; [| contradiction |].
    + apply ltb_not_eqb. exact (pushed_across candles period i j si sj Hinc Hlt Hsi Hsj).
    + rewrite eqb_sym. apply ltb_not_eqb.
      exact (pushed_across candles period j i sj si Hinc Hgt Hsj Hsi).
Qed.

Lemma output_order_witness :
  StronglySorted in_order
    [BreakoutSignal.mk 1 Resistance 50 true; BreakoutSignal.mk 1 Support 50 true] /\
  (forall i j si sj,
     i <> j ->
     In si (pushed crossed_2 1 i) -> In sj (pushed crossed_2 1 j) ->
     (BreakoutSignal.time si =? BreakoutSignal.time sj)%float = false).
Proof.
  apply (output_order crossed_2 1).
  - split.
    + intros c [<- | [<- | []]]; vm_compute; reflexivity.
    + intros i j ci cj Hi Hj Hij.
      assert (Hi' : 0 <= i < 2) by (apply (get_Some_iff crossed_2); eauto).
      assert (Hj' : 0 <= j < 2) by (apply (get_Some_iff crossed_2); eauto).
      assert (i = 0) by lia. assert (j = 1) by lia. subst i j.
      vm_compute in Hi, Hj. injection Hi as <-. injection Hj as <-.
      vm_compute. reflexivity.
  - vm_compute. reflexivity.
Defined.

(* ================================================================== *)
(** ** The fields of a signal *)
(* ================================================================== *)

(** C6.  With a positive window, every returned signal was pushed at an
    index [i] of the input from [period] on, on the candle that passed
    the test of the signal's direction against the window
    [i - period .. i - 1]; the signal carries the time of that candle,
    and its price is the close of that candle. *)
Theorem signal_from_candle (candles : list KlineData.t) (period : Z)
    (out : list BreakoutSignal.t) (s : BreakoutSignal.t) :
  0 < period ->
  detectBreakout candles period = Return out ->
  In s out ->
  exists i c,
    period <= i < length candles /\ get candles i = Some c /\
    In s (pushed candles period i) /\
    triggers (BreakoutSignal.type s) c (baseline candles period i) /\
    BreakoutSignal.time s = KlineData.time c /\
    BreakoutSignal.price s = KlineData.close c.
Proof.
  intros Hp Hout Hs.
  apply (In_detectBreakout candles period out s ltac:(lia) Hout) in Hs.
  destruct Hs as [i [Hi Hpi]].
  destruct (pushed_on_baseline candles period i s ltac:(lia) ltac:(lia) Hpi)
    as [c [Hc Hcase]].
  exists i, c.
  split; [lia |]. split; [exact Hc |]. split; [exact Hpi |].
  cbv zeta in Hcase.
  destruct Hcase as [(Ht & _ & ->) | (Ht & _ & ->)];
    (split; [exact Ht | split; reflexivity]).
Qed.

Lemma signal_from_candle_witness :
  exists i c,
    20 <= i < length breakout_21 /\ get breakout_21 i = Some c /\
    In (BreakoutSignal.mk 20 Resistance 102.5 true) (pushed breakout_21 20 i) /\
    triggers Resistance c (baseline breakout_21 20 i) /\
    BreakoutSignal.time (BreakoutSignal.mk 20 Resistance 102.5 true) = KlineData.time c /\
    BreakoutSignal.price (BreakoutSignal.mk 20 Resistance 102.5 true) = KlineData.close c.
Proof.
  apply (signal_from_candle breakout_21 20
           [BreakoutSignal.mk 20 Resistance 102.5 true]
           (BreakoutSignal.mk 20 Resistance 102.5 true)).
  - lia.
  - vm_compute. reflexivity.
  - simpl. left. reflexivity.
Defined.

(* ================================================================== *)
(** ** Two tests per candle *)
(* ================================================================== *)

(** C7.  At every index the loop pushes the outcome of the resistance
    test (nothing or one resistance signal) followed by the outcome of
    the support test (nothing or one support signal): zero, one or two
    signals.  Each of the four combinations occurs, and there is an input
    with a positive window for which one candle yields both signals. *)
Theorem tests_independent :
  (forall candles period i,
     exists up down,
       pushed candles period i = up ++ down /\
       (up = [] \/ exists r, up = [r] /\ BreakoutSignal.type r = Resistance) /\
       (down = [] \/ exists s, down = [s] /\ BreakoutSignal.type s = Support)) /\
  detectBreakout quiet_2 1 = Return [] /\
  detectBreakout rising_2 1 = Return [BreakoutSignal.mk 1 Resistance 102.5 true] /\
  detectBreakout falling_2 1 = Return [BreakoutSignal.mk 1 Support 80 true] /\
  (exists candles period i,
     0 < period /\
     emits_at candles period i Resistance /\
     emits_at candles period i Support /\
     detectBreakout candles period =
       Return [BreakoutSignal.mk 1 Resistance 50 true; BreakoutSignal.mk 1 Support 50 true]).
Proof.
  split; [exact pushed_shape |].
  split; [vm_compute; reflexivity |].
  split; [vm_compute; reflexivity |].
  split; [vm_compute; reflexivity |].
  exists crossed_2, 1, 1. split; [lia |].
  split; [| split].
  - exists (BreakoutSignal.mk 1 Resistance 50 true). split; [| reflexivity].
    vm_compute. left. reflexivity.
  - exists (BreakoutSignal.mk 1 Support 50 true). split; [| reflexivity].
    vm_compute. right. left. reflexivity.
  - vm_compute. reflexivity.
Qed.

(** With a positive window and well-formed candles the two tests exclude
    each other: the support level is at most the resistance level, and
    the close cannot be above the one and below the other. *)
Lemma well_formed_one_signal (candles : list KlineData.t) (period i : Z) :
  0 < period -> period <= i < length candles ->
  well_formed candles ->
  ~ (emits_at candles period i Resistance /\ emits_at candles period i Support).
Proof.
  intros Hp Hi Hwf [Hup Hdown].
  destruct (proj2 (get_Some_iff candles i)) as [c Hc]; [lia |].
  apply (emits_resistance_iff candles period i c Hc) in Hup.
  apply (emits_support_iff candles period i c Hc) in Hdown.
  assert (Hnn : nonnegative_extremes candles).
  { intros k Hk. destruct (Hwf k Hk) as [Hlow Hhigh]. split; [| exact Hlow].
    now apply (leb_trans _ (KlineData.low k)). }
  destruct (levels_nonnegative candles period i Hnn) as [Hr Hs].
  apply (resistance_trigger_beyond _ _ Hr) in Hup.
  apply (support_trigger_beyond _ _ Hs) in Hdown.
  unfold resistance_at, support_at in Hup, Hdown.
  rewrite slice_baseline in Hup, Hdown by lia.
  pose proof (baseline_length candles period i ltac:(lia) ltac:(lia)) as Hlen.
  destruct (baseline candles period i) as [| k rest] eqn:Ebase;
    [unfold length in Hlen; simpl in Hlen; lia |].
  assert (Hin : forall x, In x (k :: rest) -> In x candles).
  { intros x Hx. apply (In_baseline candles period i). now rewrite Ebase. }
  assert (Hhighs : Forall (fun v => is_nan v = false) (map KlineData.high (k :: rest))).
  { apply Forall_map, Forall_forall. intros x Hx.
    destruct (Hwf x (Hin x Hx)) as [_ Hh]. exact (leb_not_nan_r _ _ Hh). }
  assert (Hlows : Forall (fun v => is_nan v = false) (map KlineData.low (k :: rest))).
  { apply Forall_map, Forall_forall. intros x Hx.
    destruct (Hwf x (Hin x Hx)) as [Hl _]. exact (leb_not_nan_r _ _ Hl). }
  destruct (Math_max_greatest (map KlineData.high (k :: rest))) as [_ Hmax];
    [discriminate | exact Hhighs |].
  destruct (Math_min_least (map KlineData.low (k :: rest))) as [_ Hmin];
    [discriminate | exact Hlows |].
  assert (Hlevels : (Math_min (map KlineData.low (k :: rest))
                     <=? Math_max (map KlineData.high (k :: rest)))%float = true).
  { apply (leb_trans _ (KlineData.low k)); [apply Hmin; now left |].
    apply (leb_trans _ (KlineData.high k)); [| apply Hmax; now left].
    apply (Hwf k), Hin. now left. }
  unfold gt, lt in *.
  pose proof (ltb_leb_trans _ _ _ Hdown Hlevels) as Hbelow.
  rewrite (ltb_asym _ _ Hup) in Hbelow. discriminate.
Qed.

(* ================================================================== *)
(** ** Determinism *)
(* ================================================================== *)

Lemma Forall2_same_length (xs ys : list KlineData.t) :
  Forall2 same_prices xs ys -> List.length xs = List.length ys.
Proof. induction 1; simpl; congruence. Qed.

Lemma Forall2_same_nth (xs ys : list KlineData.t) :
  Forall2 same_prices xs ys ->
  forall n, match nth_error xs n, nth_error ys n with
            | Some a, Some b => same_prices a b
            | None, None => True
            | _, _ => False
            end.
Proof.
  induction 1 as [| a b xs ys Hab Hrest IH]; intros [| n]; simpl; auto. apply IH.
Qed.

Lemma Forall2_same_skipn (xs ys : list KlineData.t) (n : nat) :
  Forall2 same_prices xs ys -> Forall2 same_prices (skipn n xs) (skipn n ys).
Proof.
  intros H. revert n. induction H; intros [| n]; simpl; auto.
Qed.

Lemma Forall2_same_firstn (xs ys : list KlineData.t) (n : nat) :
  Forall2 same_prices xs ys -> Forall2 same_prices (firstn n xs) (firstn n ys).
Proof.
  intros H. revert n. induction H; intros [| n]; simpl; auto.
Qed.

Lemma Forall2_same_map (f : KlineData.t -> number) (xs ys : list KlineData.t) :
  (forall a b, same_prices a b -> f a = f b) ->
  Forall2 same_prices xs ys -> map f xs = map f ys.
Proof.
  intros Hf. induction 1; simpl; [reflexivity |]. f_equal; auto.
Qed.

Lemma scan_step_same_prices (xs ys : list KlineData.t) (period i : Z)
    (signals : list BreakoutSignal.t) :
  Forall2 same_prices xs ys ->
  scan_step xs period i signals = scan_step ys period i signals.
Proof.
  intros H. unfold scan_step, slice, get, length.
  rewrite (Forall2_same_length xs ys H).
  set (k := relative_index _ (i - period)). set (final := relative_index _ i).
  assert (Hw : Forall2 same_prices (firstn (Z.to_nat (final - k)) (skipn (Z.to_nat k) xs))
                                   (firstn (Z.to_nat (final - k)) (skipn (Z.to_nat k) ys)))
    by now apply Forall2_same_firstn, Forall2_same_skipn.
  rewrite (Forall2_same_map KlineData.high _ _ ltac:(unfold same_prices; tauto) Hw).
  rewrite (Forall2_same_map KlineData.low _ _ ltac:(unfold same_prices; tauto) Hw).
  destruct (i <? 0); [reflexivity |].
  pose proof (Forall2_same_nth xs ys H (Z.to_nat i)) as Hn.
  destruct (nth_error xs (Z.to_nat i)) as [a |], (nth_error ys (Z.to_nat i)) as [b |];
    try contradiction; [| reflexivity].
  destruct Hn as (Ht & Ho & Hh & Hc & Hl). simpl. now rewrite Ht, Ho, Hc.
Qed.

(** The result depends on the candles only through the fields the
    detector reads (every field but [volume]), and with a window that is
    not negative the call returns. *)
Lemma detectBreakout_reads_prices :
  (forall candles1 candles2 period,
     Forall2 same_prices candles1 candles2 ->
     detectBreakout candles1 period = detectBreakout candles2 period) /\
  (forall candles period,
     0 <= period -> exists out, detectBreakout candles period = Return out).
Proof.
  split.
  - intros candles1 candles2 period H. unfold detectBreakout, for_lt, length.
    rewrite (Forall2_same_length _ _ H).
    destruct (_ <? period); [reflexivity |].
    apply for_loop_ext. intros i s. now apply scan_step_same_prices.
  - intros candles period Hp. eexists. now apply detectBreakout_scan.
Qed.

(** C10.  Two calls of the detector, one after the other, on the array
    at [candles] and the same window, from any store, with fuel for the
    turns of the loop.  No array that existed before the calls is
    written, the input included.  When [detectBreakout] on the contents
    of the input returns [out], each call returns an array of its own
    whose contents are [out], and the second call leaves the array of
    the first as it was; when it throws, both calls throw the same
    exception.  So what a call returns is given by the contents of its
    input and the window alone, and a call leaves nothing behind that a
    later call reads. *)
Theorem detectBreakout_twice (store : Store) (candles : Ref) (cs : list KlineData.t)
    (period : Z) (fuel : nat) :
  nth_error store candles = Some (CandleArray cs) ->
  (Z.to_nat (length cs - period) < fuel)%nat ->
  exists first store1 second store2,
    detectBreakout_run fuel candles period store = (first, store1) /\
    detectBreakout_run fuel candles period store1 = (second, store2) /\
    (forall r o, nth_error store r = Some o ->
                 nth_error store1 r = Some o /\ nth_error store2 r = Some o) /\
    match detectBreakout cs period with
    | Return out =>
        exists r1 r2,
          first = Return (Some r1) /\ second = Return (Some r2) /\ r1 <> r2 /\
          nth_error store1 r1 = Some (SignalArray out) /\
          nth_error store2 r1 = Some (SignalArray out) /\
          nth_error store2 r2 = Some (SignalArray out)
    | Throw e => first = Throw e /\ second = Throw e
    end.
Proof.
  intros Hc Hfuel.
  destruct (detectBreakout_run_spec store candles cs period fuel Hc Hfuel)
    as (acc1 & rest1 & Hrun1 & Hout1).
  assert (Hc1 : nth_error (store ++ SignalArray acc1 :: rest1) candles = Some (CandleArray cs))
    by (apply nth_error_old; exact Hc).
  destruct (detectBreakout_run_spec _ candles cs period fuel Hc1 Hfuel)
    as (acc2 & rest2 & Hrun2 & Hout2).
  eexists _, _, _, _.
  split; [exact Hrun1 |]. split; [exact Hrun2 |]. split.
  - intros r o Hr. split.
    + apply nth_error_old. exact Hr.
    + apply nth_error_old, nth_error_old. exact Hr.
  - destruct (detectBreakout cs period) as [out | e]; [| split; reflexivity].
    rewrite (Hout1 out eq_refl), (Hout2 out eq_refl).
    exists (List.length store), (List.length (store ++ SignalArray out :: rest1)).
    split; [reflexivity |]. split; [reflexivity |]. split; [| split; [| split]].
    + rewrite length_app. simpl. lia.
    + apply nth_error_first_new.
    + apply nth_error_old, nth_error_first_new.
    + apply nth_error_first_new.
Qed.

Lemma detectBreakout_twice_witness :
  exists first store1 second store2,
    detectBreakout_run 2%nat 0%nat 20 [CandleArray breakout_21] = (first, store1) /\
    detectBreakout_run 2%nat 0%nat 20 store1 = (second, store2) /\
    (forall r o, nth_error [CandleArray breakout_21] r = Some o ->
                 nth_error store1 r = Some o /\ nth_error store2 r = Some o) /\
    exists r1 r2,
      first = Return (Some r1) /\ second = Return (Some r2) /\ r1 <> r2 /\
      nth_error store1 r1 = Some (SignalArray [BreakoutSignal.mk 20 Resistance 102.5 true]) /\
      nth_error store2 r1 = Some (SignalArray [BreakoutSignal.mk 20 Resistance 102.5 true]) /\
      nth_error store2 r2 = Some (SignalArray [BreakoutSignal.mk 20 Resistance 102.5 true]).
Proof.
  apply (detectBreakout_twice [CandleArray breakout_21] 0%nat breakout_21 20 2%nat).
  - reflexivity.
  - vm_compute. lia.
Defined.

(* ================================================================== *)
(** ** The sign of a difference *)
(* ================================================================== *)

(** The comparator of the two lists subtracts two times; the sign of the
    difference is the outcome of the comparison, proved on the
    specification of the subtraction ([SFsub], [binary_normalize]). *)

Lemma iter_xO_value (d m : positive) :
  Z.pos (Pos.iter xO m d) = Z.pos m * 2 ^ Z.pos d.
Proof.
  induction d as [| d IH] using Pos.peano_ind.
  - simpl. lia.
  - rewrite Pos.iter_succ, Pos2Z.inj_succ, Z.pow_succ_r by lia.
    change (Z.pos (Pos.iter xO m d)~0) with (2 * Z.pos (Pos.iter xO m d)).
    rewrite IH. ring.
Qed.

Lemma shl_align_value (m : positive) (e ez : Z) :
  ez <= e ->
  Z.pos (fst (shl_align m e ez)) = Z.pos m * 2 ^ (e - ez).
Proof.
  intros Hle. unfold shl_align. destruct (ez - e) as [| d | d] eqn:Ed.
  - replace (e - ez) with 0 by lia. simpl. lia.
  - lia.
  - simpl fst. rewrite iter_xO_value. f_equal. f_equal. lia.
Qed.

Lemma shl_align_exponent (m : positive) (e t : Z) :
  snd (shl_align m e t) = e \/ snd (shl_align m e t) = t.
Proof.
  unfold shl_align. destruct (t - e); simpl; auto.
Qed.

(** A rounded positive mantissa with an exponent not below [emin] gives
    a finite number or an infinity of the sign asked for. *)
Lemma binary_round_aux_sign (sx : bool) (m : positive) (e : Z) :
  -1074 <= e ->
  binary_round_aux prec emax sx (Z.pos m) e loc_Exact = S754_infinity sx \/
  exists m2 e2, binary_round_aux prec emax sx (Z.pos m) e loc_Exact = S754_finite sx m2 e2.
Proof.
  intros He. rewrite binary_round_aux_finish.
  destruct (shr_fexp_spec (Z.pos m) e loc_Exact ltac:(lia)) as (mrs & e1 & Heq & Hno & Hyes).
  rewrite Heq. cbn [fst snd]. cbv zeta in Hno, Hyes. rewrite fexp_eq in Hno, Hyes.
  simpl Zdigits2 in Hno, Hyes.
  pose proof (round_nearest_even_bounds (shr_m mrs) (loc_of_shr_record mrs)) as Hrne.
  set (m1 := round_nearest_even (shr_m mrs) (loc_of_shr_record mrs)) in *.
  assert (Hpos : 0 < m1 /\ -1074 <= e1).
  { destruct (Z_le_gt_dec (Z.max (Z.pos (digits2_pos m) + e - 53) (-1074) - e) 0) as [Hn | Hn].
    - destruct (Hno Hn) as [Hm ->]. lia.
    - destruct (Hyes ltac:(lia)) as [Hm ->]. split; [| lia].
      assert (Hshift : Z.max (Z.pos (digits2_pos m) + e - 53) (-1074) - e
                       = Z.pos (digits2_pos m) - 53) by lia.
      rewrite Hshift in Hm.
      assert (2 ^ 52 <= shr_m mrs); [| lia].
      rewrite Hm. apply Z.div_le_lower_bound; [apply Z.pow_pos_nonneg; lia |].
      rewrite <- Z.pow_add_r by lia.
      replace (Z.pos (digits2_pos m) - 53 + 52) with (Z.pos (digits2_pos m) - 1) by lia.
      apply digits2_pos_bounds. }
  destruct Hpos as [Hm1 He1].
  destruct (round_finish_pos sx m1 e1 Hm1 He1) as (m2 & e2 & -> & _).
  destruct (e2 <=? 971); [right; eauto | now left].
Qed.

Lemma binary_round_sign (sx : bool) (m : positive) (e : Z) :
  -1074 <= e ->
  binary_round prec emax sx m e = S754_infinity sx \/
  exists m2 e2, binary_round prec emax sx m e = S754_finite sx m2 e2.
Proof.
  intros He. unfold binary_round.
  pose proof (shl_align_exponent m e (fexp prec emax (Z.pos (digits2_pos m) + e))) as Hexp.
  destruct (shl_align m e (fexp prec emax (Z.pos (digits2_pos m) + e))) as [mz ez].
  simpl snd in Hexp. apply binary_round_aux_sign.
  destruct Hexp as [-> | ->]; [exact He |]. rewrite fexp_eq. lia.
Qed.

(** The sign of a normalised integer is the sign of the integer. *)
Lemma binary_normalize_positive (d e : Z) :
  -1074 <= e ->
  SFltb (S754_zero false) (binary_normalize prec emax d e false) = (0 <? d).
Proof.
  intros He. destruct d as [| p | p]; simpl binary_normalize.
  - reflexivity.
  - destruct (binary_round_sign false p e He) as [-> | (m2 & e2 & ->)]; reflexivity.
  - destruct (binary_round_sign true p e He) as [-> | (m2 & e2 & ->)]; reflexivity.
Qed.

(** Of two valid mantissas, the one with the smaller exponent is the
    smaller number. *)
Lemma canonical_lt (m1 m2 : positive) (e1 e2 : Z) :
  bounded prec emax m1 e1 = true -> bounded prec emax m2 e2 = true ->
  e1 < e2 ->
  Z.pos m1 < Z.pos m2 * 2 ^ (e2 - e1).
Proof.
  intros H1 H2 Hlt. apply bounded_inv in H1, H2.
  destruct H1 as [Hc1 _], H2 as [Hc2 _].
  pose proof (digits2_pos_bounds m1) as Hd1. pose proof (digits2_pos_bounds m2) as Hd2.
  assert (Hdig2 : Z.pos (digits2_pos m2) = 53) by lia.
  rewrite Hdig2 in Hd2. change (2 ^ (53 - 1)) with (2 ^ 52) in Hd2.
  assert (Hm1 : Z.pos m1 < 2 ^ 53).
  { apply Z.lt_le_trans with (2 ^ Z.pos (digits2_pos m1)); [apply Hd1 |].
    apply Z.pow_le_mono_r; lia. }
  assert (Hpow : 2 ^ 1 <= 2 ^ (e2 - e1)) by (apply Z.pow_le_mono_r; lia).
  change (2 ^ 1) with 2 in Hpow.
  apply Z.lt_le_trans with (2 ^ 52 * 2); [change (2 ^ 52 * 2) with (2 ^ 53); exact Hm1 |].
  apply Z.mul_le_mono_nonneg; lia.
Qed.

(** Comparing two valid finite numbers is comparing their signed
    mantissas once aligned on the smaller exponent. *)
Lemma SFcompare_aligned (sx sy : bool) (mx my : positive) (ex ey : Z) :
  bounded prec emax mx ex = true -> bounded prec emax my ey = true ->
  SFcompare (S754_finite sy my ey) (S754_finite sx mx ex) =
  Some (cond_Zopp sy (Z.pos my * 2 ^ (ey - Z.min ex ey)) ?=
        cond_Zopp sx (Z.pos mx * 2 ^ (ex - Z.min ex ey))).
Proof.
  intros Hx Hy. simpl SFcompare.
  assert (Hpx : 0 < Z.pos mx * 2 ^ (ex - Z.min ex ey)).
  { apply Z.mul_pos_pos; [lia | apply Z.pow_pos_nonneg; lia]. }
  assert (Hpy : 0 < Z.pos my * 2 ^ (ey - Z.min ex ey)).
  { apply Z.mul_pos_pos; [lia | apply Z.pow_pos_nonneg; lia]. }
  change (PosDef.Pos.compare_cont Eq my mx) with (Pos.compare my mx).
  f_equal. symmetry.
  destruct sy, sx; unfold cond_Zopp.
  - (* both negative *)
    destruct (Z.compare_spec ey ex) as [Heq | Hlt | Hgt].
    + subst ey. rewrite Z.min_id, Z.sub_diag, !Z.mul_1_r. simpl.
      now rewrite Pos.compare_antisym.
    + rewrite Z.min_r, Z.sub_diag, Z.mul_1_r by lia.
      pose proof (canonical_lt my mx ey ex Hy Hx Hlt). apply Z.compare_gt_iff. lia.
    + rewrite Z.min_l, Z.sub_diag, Z.mul_1_r by lia.
      pose proof (canonical_lt mx my ex ey Hx Hy ltac:(lia)). apply Z.compare_lt_iff. lia.
  - apply Z.compare_lt_iff. lia.
  - apply Z.compare_gt_iff. lia.
  - destruct (Z.compare_spec ey ex) as [Heq | Hlt | Hgt].
    + subst ey. rewrite Z.min_id, Z.sub_diag, !Z.mul_1_r. reflexivity.
    + rewrite Z.min_r, Z.sub_diag, Z.mul_1_r by lia.
      pose proof (canonical_lt my mx ey ex Hy Hx Hlt). apply Z.compare_lt_iff. lia.
    + rewrite Z.min_l, Z.sub_diag, Z.mul_1_r by lia.
      pose proof (canonical_lt mx my ex ey Hx Hy ltac:(lia)). apply Z.compare_gt_iff. lia.
Qed.

(** [x - y] is positive exactly when [y < x], for valid numbers. *)
Lemma SFsub_positive (x y : spec_float) :
  valid_binary x = true -> valid_binary y = true ->
  SFltb (S754_zero false) (SF64sub x y) = SFltb y x.
Proof.
  intros Hx Hy.
  destruct x as [[|] | [|] | | sx mx ex], y as [[|] | [|] | | sy my ey];
    try reflexivity; try (destruct sx; reflexivity); try (destruct sy; reflexivity).
  simpl in Hx, Hy. unfold SF64sub, SFsub.
  rewrite !shl_align_value by lia.
  rewrite binary_normalize_positive.
  2:{ apply bounded_inv in Hx, Hy. lia. }
  unfold SFltb. rewrite (SFcompare_aligned sx sy mx my ex ey Hx Hy).
  set (vx := cond_Zopp sx _). set (vy := cond_Zopp sy _).
  destruct (Z.compare_spec vy vx); destruct (Z.ltb_spec 0 (vx - vy)); try reflexivity; lia.
Qed.

Lemma sub_positive (a b : number) :
  (zero <? b - a)%float = (a <? b)%float.
Proof.
  rewrite !ltb_spec, sub_spec, Prim2SF_zero.
  apply SFsub_positive; apply Prim2SF_valid.
Qed.

(* ================================================================== *)
(** ** Arithmetic that gives numbers *)
(* ================================================================== *)

Lemma binary_round_aux_number (sx : bool) (m e : Z) (l : location) :
  0 <= m -> binary_round_aux prec emax sx m e l <> S754_nan.
Proof.
  intros Hm. unfold binary_round_aux.
  destruct (shr_fexp_spec m e l Hm) as (mrs & e1 & -> & Hno & Hyes).
  cbv zeta in Hno, Hyes.
  assert (H1 : 0 <= shr_m mrs).
  { destruct (Z_le_gt_dec (fexp prec emax (Zdigits2 m + e) - e) 0) as [Hn | Hn].
    - destruct (Hno Hn) as [-> _]. exact Hm.
    - destruct (Hyes ltac:(lia)) as [-> _]. apply Z.div_pos; [exact Hm |].
      apply Z.pow_pos_nonneg; lia. }
  pose proof (round_nearest_even_bounds (shr_m mrs) (loc_of_shr_record mrs)) as Hrne.
  set (m1 := round_nearest_even (shr_m mrs) (loc_of_shr_record mrs)) in *.
  destruct (shr_fexp_spec m1 e1 loc_Exact ltac:(lia)) as (mrs2 & e2 & -> & Hno2 & Hyes2).
  cbv zeta in Hno2, Hyes2.
  assert (H2 : 0 <= shr_m mrs2).
  { destruct (Z_le_gt_dec (fexp prec emax (Zdigits2 m1 + e1) - e1) 0) as [Hn | Hn].
    - destruct (Hno2 Hn) as [-> _]. lia.
    - destruct (Hyes2 ltac:(lia)) as [-> _]. apply Z.div_pos; [lia |].
      apply Z.pow_pos_nonneg; lia. }
  destruct (shr_m mrs2) as [| p | p]; try lia; [discriminate |].
  destruct (e2 <=? emax - prec); discriminate.
Qed.

Lemma binary_normalize_number (d e : Z) (s : bool) :
  binary_normalize prec emax d e s <> S754_nan.
Proof.
  destruct d as [| p | p]; simpl; [discriminate | |];
    unfold binary_round;
    destruct (shl_align p e _) as [mz ez]; apply binary_round_aux_number; lia.
Qed.

Lemma SFadd_number (x y : spec_float) :
  x <> S754_nan -> SF_finite y -> SF64add x y <> S754_nan.
Proof.
  intros Hx Hy.
  destruct x as [sx | sx | | sx mx ex], y as [sy | sy | | sy my ey];
    try contradiction; try congruence; unfold SF64add, SFadd;
    try discriminate; try (destruct sx, sy; discriminate).
  apply binary_normalize_number.
Qed.

Lemma SFsub_number (x y : spec_float) :
  x <> S754_nan -> SF_finite y -> SF64sub x y <> S754_nan.
Proof.
  intros Hx Hy.
  destruct x as [sx | sx | | sx mx ex], y as [sy | sy | | sy my ey];
    try contradiction; try congruence; unfold SF64sub, SFsub;
    try discriminate; try (destruct sx, sy; discriminate).
  apply binary_normalize_number.
Qed.

Lemma SFmul_number (x y : spec_float) (s : bool) (m : positive) (e : Z) :
  x = S754_finite s m e -> y <> S754_nan -> SF64mul x y <> S754_nan.
Proof.
  intros -> Hy.
  destruct y as [sy | sy | | sy my ey]; try congruence; unfold SF64mul, SFmul;
    try discriminate.
  apply binary_round_aux_number. lia.
Qed.

Lemma SFdiv_number (x y : spec_float) (s : bool) (m : positive) (e : Z) :
  y = S754_finite s m e -> x <> S754_nan -> SF64div x y <> S754_nan.
Proof.
  intros -> Hx.
  destruct x as [sx | sx | | sx mx ex]; try congruence; unfold SF64div, SFdiv;
    try discriminate.
  unfold SFdiv_core_binary.
  set (m' := match _ with Z.pos _ => _ | _ => _ end).
  assert (Hm' : 0 <= m').
  { unfold m'. destruct (_ - _ - _) as [| p | p]; try lia.
    apply Z.shiftl_nonneg. lia. }
  pose proof (Z.div_pos m' (Z.pos m) Hm' ltac:(lia)) as Hq.
  unfold Z.div in Hq. destruct (Z.div_eucl m' (Z.pos m)) as [q r].
  apply binary_round_aux_number. exact Hq.
Qed.

Lemma number_not_nan (x : number) : Prim2SF x <> S754_nan -> is_nan x = false.
Proof.
  intros H. unfold is_nan. apply negb_false_iff, eqb_compare. now apply SFcompare_refl.
Qed.

Lemma is_finite_SF (x : number) : is_finite x = true -> SF_finite (Prim2SF x).
Proof.
  unfold is_finite, is_infinity. rewrite negb_true_iff, orb_false_iff.
  intros [Hnan Hinf]. apply Prim2SF_not_nan in Hnan.
  rewrite eqb_spec, abs_spec in Hinf. unfold SFeqb in Hinf.
  change (Prim2SF infinity) with (S754_infinity false) in Hinf.
  destruct (Prim2SF x) as [s | s | | s m e]; simpl in *; try exact I; congruence.
Qed.

Lemma Prim2SF_two : Prim2SF 2 = S754_finite false 4503599627370496 (-51).
Proof. vm_compute. reflexivity. Qed.

Lemma Prim2SF_three : Prim2SF 3 = S754_finite false 6755399441055744 (-51).
Proof. vm_compute. reflexivity. Qed.

(* ================================================================== *)
(** ** Tails of arrays *)
(* ================================================================== *)

Lemma slice_from_last {A} (arr : list A) (n : Z) :
  0 < n -> slice_from arr (- n) = last_n n arr.
Proof.
  intros Hn. unfold slice_from, slice, last_n, relative_index.
  destruct (Z.ltb_spec (- n) 0); [| lia].
  destruct (Z.ltb_spec (length arr) 0); [unfold length in *; lia |].
  rewrite Z.min_id.
  replace (Z.to_nat (Z.max (length arr + - n) 0)) with (Z.to_nat (length arr - n)) by lia.
  apply firstn_all2. rewrite length_skipn. unfold length. lia.
Qed.

Lemma last_n_length {A} (arr : list A) (n : Z) :
  0 <= n -> length (last_n n arr) = Z.min n (length arr).
Proof.
  intros Hn. unfold last_n, length. rewrite length_skipn. lia.
Qed.

Lemma In_last_n {A} (arr : list A) (n : Z) (a : A) : In a (last_n n arr) -> In a arr.
Proof.
  unfold last_n. intros H.
  rewrite <- (firstn_skipn (Z.to_nat (length arr - n)) arr). apply in_or_app. now right.
Qed.

Lemma last_n_get {A} (arr : list A) (n k : Z) :
  0 <= n -> 0 <= k ->
  get (last_n n arr) k = get arr (Z.max (length arr - n) 0 + k).
Proof.
  intros Hn Hk. unfold last_n, get.
  destruct (Z.ltb_spec k 0); [lia |].
  destruct (Z.ltb_spec (Z.max (length arr - n) 0 + k) 0); [lia |].
  rewrite nth_error_skipn. f_equal. lia.
Qed.

(** A shorter tail is part of a longer one. *)
Lemma last_n_incl {A} (arr : list A) (n m : Z) (a : A) :
  n <= m -> In a (last_n n arr) -> In a (last_n m arr).
Proof.
  intros Hnm. unfold last_n. intros H.
  replace (Z.to_nat (length arr - n))
    with (Z.to_nat (length arr - n) - Z.to_nat (length arr - m)
          + Z.to_nat (length arr - m))%nat in H by lia.
  rewrite <- skipn_skipn in H.
  match type of H with In _ (skipn ?k ?l) =>
    rewrite <- (firstn_skipn k l); apply in_or_app; now right end.
Qed.

(** The last element is in every tail that is not empty. *)
Lemma last_in_last_n {A} (arr : list A) (n : Z) (a : A) :
  0 < n -> get arr (length arr - 1) = Some a -> In a (last_n n arr).
Proof.
  intros Hn Ha.
  assert (Hlen : 0 <= length arr - 1 < length arr) by (apply get_Some_iff; eauto).
  apply (last_n_incl arr 1 n a ltac:(lia)).
  assert (Hget : get (last_n 1 arr) 0 = Some a).
  { rewrite last_n_get by lia. rewrite <- Ha. f_equal. lia. }
  exact (get_In _ _ _ Hget).
Qed.

Lemma leb_not_nan_l (x y : number) : (x <=? y)%float = true -> is_nan x = false.
Proof.
  intros H. apply leb_compare in H. unfold is_nan. apply negb_false_iff, eqb_compare.
  apply SFcompare_refl. intros Hnan. rewrite Hnan in H.
  simpl in H. destruct H; discriminate.
Qed.

Lemma last_n_nonempty {A} (arr : list A) (n : Z) :
  0 < n -> arr <> [] -> last_n n arr <> [].
Proof.
  intros Hn Hne Hnil. pose proof (last_n_length arr n ltac:(lia)) as Hlen.
  rewrite Hnil in Hlen. destruct arr; [congruence |].
  unfold length in Hlen. simpl in Hlen. lia.
Qed.

Lemma map_nonempty {A B} (f : A -> B) (l : list A) : l <> [] -> map f l <> [].
Proof. destruct l; [congruence | discriminate]. Qed.

(* ================================================================== *)
(** ** [get24HourPrices] *)
(* ================================================================== *)

Lemma candlesToCheck_range (timeframe : Timeframe) : 1 <= candlesToCheck timeframe <= 6.
Proof. destruct timeframe; simpl; lia. Qed.

Lemma get24HourPrices_window (timeframe : Timeframe) (data : list KlineData.t) :
  data <> [] ->
  get24HourPrices timeframe data =
  DayRange.mk
    (Math_max (map KlineData.high (last_n (candlesToCheck timeframe) data)))
    (Math_min (map KlineData.low (last_n (candlesToCheck timeframe) data))).
Proof.
  intros Hne. unfold get24HourPrices.
  destruct (Z.eqb_spec (length data) 0) as [H0 | _].
  - destruct data; [congruence | unfold length in H0; simpl in H0; lia].
  - pose proof (candlesToCheck_range timeframe).
    now rewrite slice_from_last by lia.
Qed.

(** X1.  On data that is not empty, [get24HourPrices] looks at the last
    [candlesToCheck] candles (6, 3, 2 or 1 by timeframe; all the data
    when there are fewer).  When none of their highs and lows is NaN,
    [high] is the greatest of these highs and [low] the least of these
    lows: each is the value of some candle of the window, never the
    [-Infinity] or [+Infinity] of an empty window. *)
Theorem day_range_extremes (timeframe : Timeframe) (data : list KlineData.t) :
  data <> [] ->
  let window := last_n (candlesToCheck timeframe) data in
  Forall (fun c => is_nan (KlineData.high c) = false /\ is_nan (KlineData.low c) = false)
         window ->
  length window = Z.min (candlesToCheck timeframe) (length data) /\
  greatest (DayRange.high (get24HourPrices timeframe data)) (map KlineData.high window) /\
  least (DayRange.low (get24HourPrices timeframe data)) (map KlineData.low window).
Proof.
  intros Hne window Hnan. pose proof (candlesToCheck_range timeframe) as Hn.
  rewrite (get24HourPrices_window timeframe data Hne). fold window. simpl.
  assert (Hw : window <> []) by (apply last_n_nonempty; [lia | exact Hne]).
  split; [apply last_n_length; lia |]. split.
  - apply Math_max_greatest; [now apply map_nonempty |].
    apply Forall_map. eapply Forall_impl; [| exact Hnan]. simpl. tauto.
  - apply Math_min_least; [now apply map_nonempty |].
    apply Forall_map. eapply Forall_impl; [| exact Hnan]. simpl. tauto.
Qed.

Lemma day_range_extremes_witness :
  length (last_n (candlesToCheck tf_4h) rising_2) =
    Z.min (candlesToCheck tf_4h) (length rising_2) /\
  greatest (DayRange.high (get24HourPrices tf_4h rising_2))
           (map KlineData.high (last_n (candlesToCheck tf_4h) rising_2)) /\
  least (DayRange.low (get24HourPrices tf_4h rising_2))
        (map KlineData.low (last_n (candlesToCheck tf_4h) rising_2)).
Proof.
  apply (day_range_extremes tf_4h rising_2).
  - discriminate.
  - repeat constructor.
Defined.

Lemma day_range_bounds (timeframe : Timeframe) (data : list KlineData.t) (c : KlineData.t) :
  data <> [] -> close_within data ->
  In c (last_n (candlesToCheck timeframe) data) ->
  (DayRange.low (get24HourPrices timeframe data) <=? KlineData.low c)%float = true /\
  (KlineData.high c <=? DayRange.high (get24HourPrices timeframe data))%float = true.
Proof.
  intros Hne Hwf Hc.
  assert (Hnan : Forall (fun c => is_nan (KlineData.high c) = false /\
                                  is_nan (KlineData.low c) = false)
                        (last_n (candlesToCheck timeframe) data)).
  { apply Forall_forall. intros k Hk. destruct (Hwf k (In_last_n _ _ _ Hk)) as [Hl Hh].
    split; [exact (leb_not_nan_r _ _ Hh) | exact (leb_not_nan_l _ _ Hl)]. }
  pose proof (candlesToCheck_range timeframe) as Hn.
  rewrite (get24HourPrices_window timeframe data Hne). simpl.
  assert (Hw : last_n (candlesToCheck timeframe) data <> [])
    by (apply last_n_nonempty; [lia | exact Hne]).
  split.
  - apply Math_min_least; [now apply map_nonempty | | now apply in_map].
    apply Forall_map. eapply Forall_impl; [| exact Hnan]. simpl. tauto.
  - apply Math_max_greatest; [now apply map_nonempty | | now apply in_map].
    apply Forall_map. eapply Forall_impl; [| exact Hnan]. simpl. tauto.
Qed.

(** X2.  When every candle has its close between its low and its high,
    the close shown as current price (the close of the last candle) lies
    within the 24 h range shown beside it, whatever the timeframe. *)
Theorem current_price_in_day_range (timeframe : Timeframe) (data : list KlineData.t) :
  data <> [] -> close_within data ->
  exists price,
    current_close data = Some price /\
    (DayRange.low (get24HourPrices timeframe data) <=? price)%float = true /\
    (price <=? DayRange.high (get24HourPrices timeframe data))%float = true.
Proof.
  intros Hne Hwf. unfold current_close.
  destruct (proj2 (get_Some_iff data (length data - 1))) as [c Hc].
  { destruct data; [congruence | unfold length; simpl List.length; lia]. }
  rewrite Hc. simpl. exists (KlineData.close c). split; [reflexivity |].
  pose proof (candlesToCheck_range timeframe) as Hn.
  assert (Hin : In c (last_n (candlesToCheck timeframe) data))
    by (apply last_in_last_n; [lia | exact Hc]).
  destruct (day_range_bounds timeframe data c Hne Hwf Hin) as [Hlow Hhigh].
  destruct (Hwf c (get_In _ _ _ Hc)) as [Hl Hh].
  split; [exact (leb_trans _ _ _ Hlow Hl) | exact (leb_trans _ _ _ Hh Hhigh)].
Qed.

Lemma current_price_in_day_range_witness :
  exists price,
    current_close rising_2 = Some price /\
    (DayRange.low (get24HourPrices tf_1d rising_2) <=? price)%float = true /\
    (price <=? DayRange.high (get24HourPrices tf_1d rising_2))%float = true.
Proof.
  apply (current_price_in_day_range tf_1d rising_2).
  - discriminate.
  - intros c [<- | [<- | []]]; split; vm_compute; reflexivity.
Defined.

(* ================================================================== *)
(** ** [calculateSupportResistance] *)
(* ================================================================== *)

(** With ten candles or more, [recentData[0]] is the tenth candle from
    the end and the call returns. *)
Lemma calculateSupportResistance_recent (data : list KlineData.t) :
  10 <= length data ->
  exists first,
    get data (length data - 10) = Some first /\
    calculateSupportResistance data =
    Return {| Levels.support :=
                Math_min (pivot_support first :: map KlineData.low (last_n 10 data));
              Levels.resistance :=
                Math_max (pivot_resistance first :: map KlineData.high (last_n 10 data)) |}.
Proof.
  intros Hlen. destruct (proj2 (get_Some_iff data (length data - 10))) as [first Hfirst]; [lia |].
  exists first. split; [exact Hfirst |]. unfold calculateSupportResistance.
  destruct (Z.ltb_spec (length data) 10); [lia |].
  change (slice_from data (-10)) with (slice_from data (- (10))).
  rewrite slice_from_last by lia. rewrite last_n_get by lia.
  replace (Z.max (length data - 10) 0 + 0) with (length data - 10) by lia.
  rewrite Hfirst. reflexivity.
Qed.


(** X4.  With ten candles or more, a support level that is a number is
    at most every low of the last ten candles, and a resistance level
    that is a number is at least every high of the last ten candles. *)
Theorem levels_bound_recent (data : list KlineData.t) (levels : Levels.t) :
  10 <= length data ->
  calculateSupportResistance data = Return levels ->
  (is_nan (Levels.support levels) = false ->
   forall c, In c (last_n 10 data) ->
     (Levels.support levels <=? KlineData.low c)%float = true) /\
  (is_nan (Levels.resistance levels) = false ->
   forall c, In c (last_n 10 data) ->
     (KlineData.high c <=? Levels.resistance levels)%float = true).
Proof.
  intros Hlen Hret.
  destruct (calculateSupportResistance_recent data Hlen) as [first [_ Heq]].
  rewrite Heq in Hret. injection Hret as <-. simpl. split; intros Hnum c Hc.
  - apply Math_min_number; [discriminate | exact Hnum |]. right. now apply in_map.
  - apply Math_max_number; [discriminate | exact Hnum |]. right. now apply in_map.
Qed.

Lemma levels_bound_recent_witness :
  (is_nan (Levels.support (Levels.mk 90 100)) = false ->
   forall c, In c (last_n 10 flat20) ->
     (Levels.support (Levels.mk 90 100) <=? KlineData.low c)%float = true) /\
  (is_nan (Levels.resistance (Levels.mk 90 100)) = false ->
   forall c, In c (last_n 10 flat20) ->
     (KlineData.high c <=? Levels.resistance (Levels.mk 90 100))%float = true).
Proof.
  apply (levels_bound_recent flat20 (Levels.mk 90 100)).
  - vm_compute. discriminate.
  - vm_compute. reflexivity.
Defined.

Lemma Math_number_args (values : list number) :
  (is_nan (Math_max values) = false \/ is_nan (Math_min values) = false) ->
  Forall (fun v => is_nan v = false) values.
Proof.
  intros H. destruct (all_numbers_or_NaN values) as [Hall | Hsome]; [exact Hall |].
  unfold Math_max, Math_min in H.
  rewrite (Math_max_from_NaN values Hsome), (Math_min_from_NaN values Hsome) in H.
  destruct H; discriminate.
Qed.

(** X5.  With ten candles or more, levels that are numbers bracket the
    24 h range: support <= 24 h low and 24 h high <= resistance, for every
    timeframe. *)
Theorem levels_bracket_day_range (timeframe : Timeframe) (data : list KlineData.t)
    (levels : Levels.t) :
  10 <= length data ->
  calculateSupportResistance data = Return levels ->
  is_nan (Levels.support levels) = false ->
  is_nan (Levels.resistance levels) = false ->
  (Levels.support levels <=? DayRange.low (get24HourPrices timeframe data))%float = true /\
  (DayRange.high (get24HourPrices timeframe data) <=? Levels.resistance levels)%float = true.
Proof.
  intros Hlen Hret Hs Hr.
  destruct (calculateSupportResistance_recent data Hlen) as [first [_ Heq]].
  rewrite Heq in Hret. injection Hret as <-. simpl in *.
  assert (Hne : data <> []) by (intros ->; unfold length in Hlen; simpl in Hlen; lia).
  pose proof (candlesToCheck_range timeframe) as Hn.
  rewrite (get24HourPrices_window timeframe data Hne). simpl.
  set (window := last_n (candlesToCheck timeframe) data).
  assert (Hsub : forall c, In c window -> In c (last_n 10 data)).
  { intros c Hc. apply (last_n_incl data (candlesToCheck timeframe) 10); [lia | exact Hc]. }
  assert (Hw : window <> []) by (apply last_n_nonempty; [lia | exact Hne]).
  pose proof (Math_number_args _ (or_intror Hs)) as Hlows.
  pose proof (Math_number_args _ (or_introl Hr)) as Hhighs.
  apply Forall_inv_tail in Hlows, Hhighs. rewrite Forall_map in Hlows, Hhighs.
  rewrite Forall_forall in Hlows, Hhighs.
  split.
  - destruct (Math_min_least (map KlineData.low window)) as [Hin _].
    { now apply map_nonempty. }
    { apply Forall_map, Forall_forall. intros c Hc. apply Hlows, Hsub, Hc. }
    apply in_map_iff in Hin. destruct Hin as [c [<- Hc]].
    apply Math_min_number; [discriminate | exact Hs |]. right. apply in_map, Hsub, Hc.
  - destruct (Math_max_greatest (map KlineData.high window)) as [Hin _].
    { now apply map_nonempty. }
    { apply Forall_map, Forall_forall. intros c Hc. apply Hhighs, Hsub, Hc. }
    apply in_map_iff in Hin. destruct Hin as [c [<- Hc]].
    apply Math_max_number; [discriminate | exact Hr |]. right. apply in_map, Hsub, Hc.
Qed.

Lemma levels_bracket_day_range_witness :
  (Levels.support (Levels.mk 90 100) <=? DayRange.low (get24HourPrices tf_4h flat20))%float
    = true /\
  (DayRange.high (get24HourPrices tf_4h flat20) <=? Levels.resistance (Levels.mk 90 100))%float
    = true.
Proof.
  apply (levels_bracket_day_range tf_4h flat20 (Levels.mk 90 100)).
  - vm_compute. discriminate.
  - vm_compute. reflexivity.
  - reflexivity.
  - reflexivity.
Defined.

(** The pivot levels of a candle with finite prices are numbers. *)
Lemma pivot_levels_numbers (first : KlineData.t) :
  is_finite (KlineData.high first) = true ->
  is_finite (KlineData.low first) = true ->
  is_finite (KlineData.close first) = true ->
  is_nan (pivot_support first) = false /\ is_nan (pivot_resistance first) = false.
Proof.
  intros Hh Hl Hc.
  assert (Hh' := is_finite_SF _ Hh). assert (Hl' := is_finite_SF _ Hl).
  assert (Hc' := is_finite_SF _ Hc).
  assert (Hp : Prim2SF (2 * pivot_of first)%float <> S754_nan).
  { unfold pivot_of. rewrite mul_spec. eapply SFmul_number; [apply Prim2SF_two |].
    rewrite div_spec. eapply SFdiv_number; [apply Prim2SF_three |].
    rewrite add_spec. apply SFadd_number; [| exact Hc'].
    rewrite add_spec. apply SFadd_number; [| exact Hl'].
    destruct (Prim2SF (KlineData.high first)); try contradiction; discriminate. }
  split; apply number_not_nan.
  - unfold pivot_support. rewrite sub_spec. now apply SFsub_number.
  - unfold pivot_resistance. rewrite sub_spec. now apply SFsub_number.
Qed.

(** X6.  With ten candles or more, when the highs and lows of the last
    ten candles are numbers and the tenth candle from the end has finite
    high, low and close, both levels are numbers: the pivot arithmetic
    can overflow to an infinity but does not produce NaN. *)
Theorem levels_are_numbers (data : list KlineData.t) (first : KlineData.t) :
  10 <= length data ->
  get data (length data - 10) = Some first ->
  is_finite (KlineData.high first) = true ->
  is_finite (KlineData.low first) = true ->
  is_finite (KlineData.close first) = true ->
  Forall (fun c => is_nan (KlineData.high c) = false /\ is_nan (KlineData.low c) = false)
         (last_n 10 data) ->
  exists levels,
    calculateSupportResistance data = Return levels /\
    is_nan (Levels.support levels) = false /\
    is_nan (Levels.resistance levels) = false.
Proof.
  intros Hlen Hfirst Hh Hl Hc Hnum.
  destruct (calculateSupportResistance_recent data Hlen) as [first' [Hfirst' Heq]].
  assert (first' = first) by congruence. subst first'.
  destruct (pivot_levels_numbers first Hh Hl Hc) as [Hs Hr].
  eexists. split; [exact Heq |]. simpl. split.
  - destruct (Math_min_least (pivot_support first :: map KlineData.low (last_n 10 data)))
      as [Hin _]; [discriminate | |].
    + constructor; [exact Hs |]. apply Forall_map.
      eapply Forall_impl; [| exact Hnum]. simpl. tauto.
    + destruct Hin as [<- | Hin]; [exact Hs |].
      apply in_map_iff in Hin. destruct Hin as [c [<- Hin]].
      rewrite Forall_forall in Hnum. apply Hnum, Hin.
  - destruct (Math_max_greatest (pivot_resistance first :: map KlineData.high (last_n 10 data)))
      as [Hin _]; [discriminate | |].
    + constructor; [exact Hr |]. apply Forall_map.
      eapply Forall_impl; [| exact Hnum]. simpl. tauto.
    + destruct Hin as [<- | Hin]; [exact Hr |].
      apply in_map_iff in Hin. destruct Hin as [c [<- Hin]].
      rewrite Forall_forall in Hnum. apply Hnum, Hin.
Qed.

Lemma levels_are_numbers_witness :
  exists levels,
    calculateSupportResistance flat20 = Return levels /\
    is_nan (Levels.support levels) = false /\
    is_nan (Levels.resistance levels) = false.
Proof.
  apply (levels_are_numbers flat20 (flat 10)).
  - vm_compute. discriminate.
  - vm_compute. reflexivity.
  - vm_compute. reflexivity.
  - vm_compute. reflexivity.
  - vm_compute. reflexivity.
  - apply Forall_forall. intros c Hc. vm_compute in Hc.
    repeat (destruct Hc as [<- | Hc]; [split; vm_compute; reflexivity |]). destruct Hc.
Defined.

(* ================================================================== *)
(** ** The two lists of signals *)
(* ================================================================== *)

Lemma sort_insert_Permutation {A} (comparator : A -> A -> number) (x : A) (sorted : list A) :
  Permutation (sort_insert comparator x sorted) (x :: sorted).
Proof.
  induction sorted as [| y rest IH]; simpl; [reflexivity |].
  destruct (gt (comparator x y) zero); [| reflexivity].
  rewrite IH. apply perm_swap.
Qed.

Lemma sort_Permutation {A} (comparator : A -> A -> number) (arr : list A) :
  Permutation (sort comparator arr) arr.
Proof.
  induction arr as [| x rest IH]; simpl; [reflexivity |].
  rewrite sort_insert_Permutation. now constructor.
Qed.

Lemma slice_prefix {A} (arr : list A) (n : Z) :
  0 <= n -> slice arr 0 n = firstn (Z.to_nat n) arr.
Proof.
  intros Hn. unfold slice, relative_index.
  destruct (Z.ltb_spec 0 0); [lia |]. destruct (Z.ltb_spec n 0); [lia |].
  rewrite (Z.min_l 0) by (unfold length; lia). simpl skipn. rewrite Z.sub_0_r.
  destruct (Z.le_ge_cases n (length arr)) as [Hle | Hge].
  - now rewrite Z.min_l by lia.
  - rewrite Z.min_r by lia. unfold length in *.
    rewrite !firstn_all2 by lia. reflexivity.
Qed.

Lemma filter_is_type (ty : SignalType) (signals : list BreakoutSignal.t) (s : BreakoutSignal.t) :
  In s (filter (is_type ty) signals) <-> In s signals /\ BreakoutSignal.type s = ty.
Proof.
  rewrite filter_In. unfold is_type.
  destruct (BreakoutSignal.type s), ty; split; intros [H1 H2]; split;
    trivial; discriminate.
Qed.

Lemma In_firstn_list {A} (n : nat) (l : list A) (a : A) : In a (firstn n l) -> In a l.
Proof.
  intros H. rewrite <- (firstn_skipn n l). apply in_or_app. now left.
Qed.

(** X7.  Each of the two lists beside the chart has at most ten entries,
    all of them signals of the direction asked for taken from [signals];
    when there are at most ten such signals the list has them all. *)
Theorem latest_signals_selection (ty : SignalType) (signals : list BreakoutSignal.t) :
  length (latest_signals ty signals) <= 10 /\
  (forall s, In s (latest_signals ty signals) ->
     In s signals /\ BreakoutSignal.type s = ty) /\
  (length (filter (is_type ty) signals) <= 10 ->
   Permutation (latest_signals ty signals) (filter (is_type ty) signals)).
Proof.
  unfold latest_signals. rewrite slice_prefix by lia. split; [| split].
  - unfold length. rewrite length_firstn. lia.
  - intros s Hs. apply In_firstn_list in Hs.
    apply (Permutation_in _ (sort_Permutation newest_first _)) in Hs.
    now apply filter_is_type.
  - intros Hlen. rewrite firstn_all2; [apply sort_Permutation |].
    rewrite (Permutation_length (sort_Permutation newest_first _)).
    unfold length in Hlen. lia.
Qed.

Lemma StronglySorted_In_tail {A} (R : A -> A -> Prop) (a b : A) (l : list A) :
  StronglySorted R (a :: l) -> In b l -> R a b.
Proof.
  intros H Hb. apply StronglySorted_inv in H. destruct H as [_ H].
  rewrite Forall_forall in H. now apply H.
Qed.

Lemma sort_insert_sorted (x : BreakoutSignal.t) (sorted : list BreakoutSignal.t) :
  is_nan (BreakoutSignal.time x) = false ->
  Forall (fun s => is_nan (BreakoutSignal.time s) = false) sorted ->
  StronglySorted not_newer sorted ->
  StronglySorted not_newer (sort_insert newest_first x sorted).
Proof.
  intros Hx Hnum Hsorted.
  induction sorted as [| y rest IH]; simpl; [repeat constructor |].
  assert (Hy : is_nan (BreakoutSignal.time y) = false) by now inversion Hnum.
  assert (Hrest : Forall (fun s => is_nan (BreakoutSignal.time s) = false) rest)
    by now inversion Hnum.
  unfold gt, newest_first. rewrite sub_positive.
  destruct (BreakoutSignal.time x <? BreakoutSignal.time y)%float eqn:Elt.
  - constructor.
    + apply IH; [exact Hrest | now apply StronglySorted_inv in Hsorted].
    + apply Forall_forall. intros z Hz.
      apply (Permutation_in _ (sort_insert_Permutation newest_first x rest)) in Hz.
      destruct Hz as [<- | Hz].
      * unfold not_newer. now apply ltb_leb.
      * now apply (StronglySorted_In_tail not_newer y z rest).
  - assert (Hxy : not_newer x y) by (unfold not_newer; now apply not_ltb_leb).
    constructor; [exact Hsorted |]. constructor; [exact Hxy |].
    apply Forall_forall. intros z Hz. unfold not_newer in *.
    apply (leb_trans _ (BreakoutSignal.time y)); [| exact Hxy].
    exact (StronglySorted_In_tail not_newer y z rest Hsorted Hz).
Qed.

Lemma sort_sorted (signals : list BreakoutSignal.t) :
  Forall (fun s => is_nan (BreakoutSignal.time s) = false) signals ->
  StronglySorted not_newer (sort newest_first signals).
Proof.
  induction 1 as [| x rest Hx Hrest IH]; simpl; [constructor |].
  apply sort_insert_sorted; [exact Hx | | exact IH].
  apply Forall_forall. intros s Hs.
  apply (Permutation_in _ (sort_Permutation newest_first rest)) in Hs.
  rewrite Forall_forall in Hrest. now apply Hrest.
Qed.

Lemma StronglySorted_split {A} (R : A -> A -> Prop) (xs ys : list A) :
  StronglySorted R (xs ++ ys) ->
  StronglySorted R xs /\ forall x y, In x xs -> In y ys -> R x y.
Proof.
  induction xs as [| a xs IH]; simpl; intros H.
  - split; [constructor | intros x y []].
  - apply StronglySorted_inv in H. destruct H as [Hrest Ha].
    destruct (IH Hrest) as [Hxs Hcross]. rewrite Forall_forall in Ha. split.
    + constructor; [exact Hxs |]. apply Forall_forall. intros b Hb.
      apply Ha, in_or_app. now left.
    + intros x y [<- | Hx] Hy; [apply Ha, in_or_app; now right | now apply Hcross].
Qed.

(** X8.  When the signal times are numbers, each of the two lists is in
    order of non-increasing time (newest first), and the signals of that
    direction that are left out are not newer than any listed one. *)
Theorem latest_signals_newest_first (ty : SignalType) (signals : list BreakoutSignal.t) :
  Forall (fun s => is_nan (BreakoutSignal.time s) = false) signals ->
  StronglySorted not_newer (latest_signals ty signals) /\
  exists dropped,
    Permutation (latest_signals ty signals ++ dropped) (filter (is_type ty) signals) /\
    forall s d, In s (latest_signals ty signals) -> In d dropped -> not_newer s d.
Proof.
  intros Hnum. unfold latest_signals. rewrite slice_prefix by lia.
  set (sorted := sort newest_first (filter (is_type ty) signals)).
  assert (Hsorted : StronglySorted not_newer sorted).
  { apply sort_sorted. apply Forall_forall. intros s Hs. apply filter_In in Hs.
    rewrite Forall_forall in Hnum. now apply Hnum. }
  rewrite <- (firstn_skipn (Z.to_nat 10) sorted) in Hsorted.
  destruct (StronglySorted_split _ _ _ Hsorted) as [Hfirst Hcross].
  split; [exact Hfirst |]. exists (skipn (Z.to_nat 10) sorted). split; [| exact Hcross].
  rewrite firstn_skipn. apply sort_Permutation.
Qed.

Lemma latest_signals_newest_first_witness :
  StronglySorted not_newer (latest_signals Resistance three_signals) /\
  exists dropped,
    Permutation (latest_signals Resistance three_signals ++ dropped)
                (filter (is_type Resistance) three_signals) /\
    forall s d, In s (latest_signals Resistance three_signals) -> In d dropped ->
                not_newer s d.
Proof.
  apply (latest_signals_newest_first Resistance three_signals).
  repeat constructor.
Defined.

Lemma crossed_2_increasing : increasing_times crossed_2.
Proof.
  split.
  - intros c [<- | [<- | []]]; vm_compute; reflexivity.
  - intros i j ci cj Hi Hj Hij.
    assert (Hi' : 0 <= i < 2) by (apply (get_Some_iff crossed_2); eauto).
    assert (Hj' : 0 <= j < 2) by (apply (get_Some_iff crossed_2); eauto).
    assert (i = 0) by lia. assert (j = 1) by lia. subst i j.
    vm_compute in Hi, Hj. injection Hi as <-. injection Hj as <-.
    vm_compute. reflexivity.
Qed.







Lemma detector_in_order (candles : list KlineData.t) (period : Z)
    (out : list BreakoutSignal.t) :
  increasing_times candles ->
  detectBreakout candles period = Return out ->
  StronglySorted in_order out.
Proof.
  intros Hinc Hout. destruct (Z.lt_ge_cases period 0) as [Hneg | Hge].
  - rewrite detectBreakout_negative in Hout by exact Hneg. discriminate.
  - rewrite detectBreakout_scan in Hout by exact Hge. injection Hout as <-.
    now apply scan_in_order.
Qed.



(* ================================================================== *)
(** ** The markers of the chart *)
(* ================================================================== *)

Lemma StronglySorted_map {A B} (R : A -> A -> Prop) (Q : B -> B -> Prop) (f : A -> B)
    (l : list A) :
  (forall a b, R a b -> Q (f a) (f b)) ->
  StronglySorted R l -> StronglySorted Q (map f l).
Proof.
  intros HRQ. induction 1 as [| a l Hl IH Ha]; simpl; constructor; [exact IH |].
  apply Forall_map. eapply Forall_impl; [| exact Ha]. intros b. apply HRQ.
Qed.

(** X10.  The markers handed to the chart for the output of the detector
    on candles whose times strictly increase are one per signal, in the
    order of the signals, and in order of non-decreasing time. *)
Theorem markers_in_time_order (candles : list KlineData.t) (period : Z)
    (out : list BreakoutSignal.t) :
  increasing_times candles ->
  detectBreakout candles period = Return out ->
  map Marker.time (markers out) = map BreakoutSignal.time out /\
  StronglySorted marker_not_after (markers out).
Proof.
  intros Hinc Hout. split.
  - unfold markers. rewrite map_map. reflexivity.
  - apply (StronglySorted_map in_order); [| exact (detector_in_order _ _ _ Hinc Hout)].
    intros a b [Hle _]. exact Hle.
Qed.

Lemma markers_in_time_order_witness :
  map Marker.time (markers [BreakoutSignal.mk 1 Resistance 50 true;
                            BreakoutSignal.mk 1 Support 50 true])
  = map BreakoutSignal.time [BreakoutSignal.mk 1 Resistance 50 true;
                             BreakoutSignal.mk 1 Support 50 true] /\
  StronglySorted marker_not_after
    (markers [BreakoutSignal.mk 1 Resistance 50 true; BreakoutSignal.mk 1 Support 50 true]).
Proof.
  apply (markers_in_time_order crossed_2 1).
  - exact crossed_2_increasing.
  - vm_compute. reflexivity.
Defined.

(** X11.  A marker shows the direction and the confirmation of its
    signal: two signals with the same marker agree on time, direction
    and confirmation (the price is not shown), and the text is one of
    four labels, with a trailing space when the signal is not
    confirmed. *)
Theorem marker_reads_back (a b : BreakoutSignal.t) :
  marker_of a = marker_of b ->
  BreakoutSignal.time a = BreakoutSignal.time b /\
  BreakoutSignal.type a = BreakoutSignal.type b /\
  BreakoutSignal.confirmed a = BreakoutSignal.confirmed b /\
  Marker.text (marker_of a) =
    match BreakoutSignal.type a, BreakoutSignal.confirmed a with
    | Resistance, true => "Resistance (Confirmed)"%string
    | Resistance, false => "Resistance "%string
    | Support, true => "Support (Confirmed)"%string
    | Support, false => "Support "%string
    end.
Proof.
  destruct a as [ta tya pa ca], b as [tb tyb pb cb]. unfold marker_of, is_type. simpl.
  intros H. injection H as Htime Hpos _ Hshape _.
  repeat split.
  - exact Htime.
  - destruct tya, tyb; try reflexivity; discriminate.
  - destruct ca, cb; try reflexivity; discriminate.
  - destruct tya, ca; reflexivity.
Qed.

Lemma marker_reads_back_witness :
  BreakoutSignal.time (BreakoutSignal.mk 1 Resistance 50 false) =
    BreakoutSignal.time (BreakoutSignal.mk 1 Resistance 51 false) /\
  BreakoutSignal.type (BreakoutSignal.mk 1 Resistance 50 false) =
    BreakoutSignal.type (BreakoutSignal.mk 1 Resistance 51 false) /\
  BreakoutSignal.confirmed (BreakoutSignal.mk 1 Resistance 50 false) =
    BreakoutSignal.confirmed (BreakoutSignal.mk 1 Resistance 51 false) /\
  Marker.text (marker_of (BreakoutSignal.mk 1 Resistance 50 false)) = "Resistance "%string.
Proof.
  apply (marker_reads_back (BreakoutSignal.mk 1 Resistance 50 false)
                           (BreakoutSignal.mk 1 Resistance 51 false)).
  reflexivity.
Defined.

(* ================================================================== *)
(** ** [fetchData] *)
(* ================================================================== *)

Section FetchDataFacts.

Variable parseFloat : String.string -> number.
Variable typeError_message : String.string.

Lemma detectBreakout_default_returns (candles : list KlineData.t) :
  exists out, detectBreakout_default candles = Return out.
Proof.
  unfold detectBreakout_default, default_period. eexists. apply detectBreakout_scan. lia.
Qed.

(** X12.  A request that succeeds leaves the state with the formatted
    rows as data, the detector's signals for exactly these rows (window
    20; the call cannot throw), no error, [loading] false and the time
    of the update; it schedules nothing. *)
Theorem fetchData_success (retryCount : Z) (rows : list Row.t) (now : number)
    (st : AppState.t) :
  exists newSignals,
    detectBreakout (map (formatted parseFloat) rows) 20 = Return newSignals /\
    fetchData parseFloat typeError_message retryCount (Resolved rows) now st =
    (AppState.mk (AppState.timeframe st) (map (formatted parseFloat) rows) newSignals false None now, []).
Proof.
  destruct (detectBreakout_default_returns (map (formatted parseFloat) rows)) as [out Hout].
  exists out. split; [exact Hout |].
  unfold fetchData, try_block. rewrite Hout. reflexivity.
Qed.

Lemma fetchData_scheduled (retryCount : Z) (settled : Settled) (now : number)
    (st : AppState.t) (delay next : Z) :
  scheduled (snd (fetchData parseFloat typeError_message retryCount settled now st)) = Some (delay, next) ->
  retryCount < 3 /\ delay = 1000 * (retryCount + 1) /\ next = retryCount + 1.
Proof.
  unfold fetchData, try_block. destruct settled as [rows | err].
  - destruct (detectBreakout_default_returns (map (formatted parseFloat) rows)) as [out ->].
    simpl. discriminate.
  - unfold catch_block. destruct (Z.ltb_spec retryCount 3) as [Hlt | Hge]; simpl.
    + destruct (network_error err); simpl; [| discriminate].
      intros H. injection H as <- <-. auto.
    + discriminate.
Qed.

Lemma retries_from (settlements : list (Settled * number)) :
  forall (retryCount : Z) (st : AppState.t),
    0 <= retryCount ->
    let '(_, delays, requests) := retries parseFloat typeError_message settlements retryCount st in
    (Z.of_nat requests <= Z.max 1 (4 - retryCount)) /\
    exists k, delays = firstn k (backoff retryCount).
Proof.
  induction settlements as [| [settled now] rest IH]; intros retryCount st Hrc;
    cbn [retries].
  - split; [lia | now exists O].
  - destruct (fetchData parseFloat typeError_message retryCount settled now st) as [st' effects] eqn:Efetch.
    destruct (scheduled effects) as [[delay next] |] eqn:Esched.
    + assert (Hs : scheduled (snd (fetchData parseFloat typeError_message retryCount settled now st)) = Some (delay, next))
        by now rewrite Efetch.
      apply fetchData_scheduled in Hs. destruct Hs as (Hlt & -> & ->).
      specialize (IH (retryCount + 1) st' ltac:(lia)).
      destruct (retries parseFloat typeError_message rest (retryCount + 1) st') as [[st'' delays] requests].
      destruct IH as [Hreq [k Hk]]. split; [lia |].
      exists (S k). unfold backoff in *.
      replace (Z.to_nat (3 - retryCount)) with (S (Z.to_nat (3 - (retryCount + 1)))) by lia.
      simpl. now rewrite Hk.
    + split; [lia | now exists O].
Qed.

(** X13.  A call of [fetchData()] and the retries that follow it make at
    most four requests, and the waits before the retries are 1000, 2000
    and 3000 ms in this order (as many as there are retries), however
    the requests settle. *)
Theorem retries_bounded (settlements : list (Settled * number)) (st : AppState.t) :
  (snd (retries parseFloat typeError_message settlements 0 st) <= 4)%nat /\
  exists k, snd (fst (retries parseFloat typeError_message settlements 0 st)) = firstn k [1000; 2000; 3000].
Proof.
  pose proof (retries_from settlements 0 st ltac:(lia)) as H.
  destruct (retries parseFloat typeError_message settlements 0 st) as [[st' delays] requests]. simpl.
  destruct H as [Hreq Hk]. split; [lia | exact Hk].
Qed.

(** X14.  A call schedules a retry exactly when fewer than three retries
    were made and the request was rejected with an error of axios
    without a response.  A first request rejected with an error of axios
    that has a response, or with another [Error], is not repeated: the
    state gets the message of the error followed by
    [. Please try again later.]; rejected with a value that is not an
    [Error], it gets
    [Failed to fetch price data. Please try again later.]; in each case
    [loading] is false and the data, the signals and the time of the
    last update are kept.  Four rejections in a row without a response
    end the same way, with the message of the fourth, after waits of
    1000, 2000 and 3000 ms. *)
Theorem retries_give_up :
  (forall retryCount settled now st,
     scheduled (snd (fetchData parseFloat typeError_message retryCount settled now st)) <> None <->
     retryCount < 3 /\ exists message, settled = Rejected (AxiosError message false)) /\
  (forall message now rest st,
     retries parseFloat typeError_message ((Rejected (AxiosError message true), now) :: rest) 0 st =
     (AppState.mk (AppState.timeframe st) (AppState.data st) (AppState.signals st) false
        (Some (String.append message ". Please try again later."%string))
        (AppState.lastUpdate st),
      [], 1%nat)) /\
  (forall message now rest st,
     retries parseFloat typeError_message ((Rejected (OtherError message), now) :: rest) 0 st =
     (AppState.mk (AppState.timeframe st) (AppState.data st) (AppState.signals st) false
        (Some (String.append message ". Please try again later."%string))
        (AppState.lastUpdate st),
      [], 1%nat)) /\
  (forall now rest st,
     retries parseFloat typeError_message ((Rejected NotAnError, now) :: rest) 0 st =
     (AppState.mk (AppState.timeframe st) (AppState.data st) (AppState.signals st) false
        (Some "Failed to fetch price data. Please try again later."%string)
        (AppState.lastUpdate st),
      [], 1%nat)) /\
  (forall m1 m2 m3 m4 n1 n2 n3 n4 rest st,
     retries parseFloat typeError_message
       ((Rejected (AxiosError m1 false), n1) :: (Rejected (AxiosError m2 false), n2) ::
        (Rejected (AxiosError m3 false), n3) :: (Rejected (AxiosError m4 false), n4) ::
        rest) 0 st =
     (AppState.mk (AppState.timeframe st) (AppState.data st) (AppState.signals st) false
        (Some (String.append m4 ". Please try again later."%string))
        (AppState.lastUpdate st),
      [1000; 2000; 3000], 4%nat)).
Proof.
  split; [| split; [| split; [| split]]]; try (intros; reflexivity).
  intros retryCount settled now st. unfold fetchData, try_block.
  destruct settled as [rows | err].
  - destruct (detectBreakout_default_returns (map (formatted parseFloat) rows)) as [out ->].
    simpl. split; [congruence |]. intros [_ [message H]]. discriminate.
  - unfold catch_block. destruct (Z.ltb_spec retryCount 3) as [Hlt | Hge]; simpl.
    + destruct err as [message [|] | message |]; simpl.
      * split; [congruence |]. intros [_ [m H]]. discriminate.
      * split; [| discriminate]. intros _. split; [exact Hlt |]. now exists message.
      * split; [congruence |]. intros [_ [m H]]. discriminate.
      * split; [congruence |]. intros [_ [m H]]. discriminate.
    + split; [congruence | lia].
Qed.

(** X15.  The signals of the state are always those the detector gives
    for the data of the state (window 20): this holds at the first
    render and is kept by every call of [fetchData], however the
    request settles. *)
Theorem signals_match_data :
  (forall now, consistent (initial_state now)) /\
  (forall retryCount settled now st,
     consistent st -> consistent (fst (fetchData parseFloat typeError_message retryCount settled now st))).
Proof.
  split.
  - intros now. reflexivity.
  - intros retryCount settled now st Hst. unfold consistent in *.
    destruct settled as [rows | err].
    + destruct (detectBreakout_default_returns (map (formatted parseFloat) rows)) as [out Hout].
      unfold fetchData, try_block. rewrite Hout. simpl. exact Hout.
    + unfold fetchData, try_block, catch_block.
      destruct ((retryCount <? 3) && network_error err); simpl; exact Hst.
Qed.

End FetchDataFacts.

(* ================================================================== *)
(** ** Locality of the detector *)
(* ================================================================== *)








Lemma length_skipn_Z {A} (l : list A) (k : nat) :
  (k <= List.length l)%nat -> length (skipn k l) = length l - Z.of_nat k.
Proof. intros Hk. unfold length. rewrite length_skipn. lia. Qed.

Lemma slice_skipn {A} (l : list A) (k : nat) (a b : Z) :
  (k <= List.length l)%nat -> 0 <= a <= b -> b <= length l - Z.of_nat k ->
  slice (skipn k l) a b = slice l (a + Z.of_nat k) (b + Z.of_nat k).
Proof.
  intros Hk Ha Hb. unfold slice, relative_index. rewrite length_skipn_Z by exact Hk.
  destruct (Z.ltb_spec a 0); [lia |]. destruct (Z.ltb_spec b 0); [lia |].
  destruct (Z.ltb_spec (a + Z.of_nat k) 0); [lia |].
  destruct (Z.ltb_spec (b + Z.of_nat k) 0); [lia |].
  rewrite !Z.min_l by lia. rewrite skipn_skipn. f_equal; [lia |]. f_equal. lia.
Qed.

Lemma get_skipn {A} (l : list A) (k : nat) (i : Z) :
  0 <= i -> get (skipn k l) i = get l (i + Z.of_nat k).
Proof.
  intros Hi. unfold get. destruct (Z.ltb_spec i 0); [lia |].
  destruct (Z.ltb_spec (i + Z.of_nat k) 0); [lia |].
  rewrite nth_error_skipn. f_equal. lia.
Qed.

Lemma pushed_skipn (candles : list KlineData.t) (k : nat) (period i : Z) :
  (k <= List.length candles)%nat -> 0 <= period <= i -> i < length candles - Z.of_nat k ->
  pushed (skipn k candles) period i = pushed candles period (i + Z.of_nat k).
Proof.
  intros Hk Hp Hi. unfold pushed, scan_step.
  rewrite slice_skipn by lia. rewrite get_skipn by lia.
  replace (i + Z.of_nat k - period) with (i - period + Z.of_nat k) by lia. reflexivity.
Qed.

Lemma flat_map_indices_shift {B} (f g : Z -> list B) (shift : Z) (n : nat) :
  forall start,
    (forall i, start <= i < start + Z.of_nat n -> f i = g (i + shift)) ->
    flat_map f (indices start n) = flat_map g (indices (start + shift) n).
Proof.
  induction n as [| n IH]; intros start Hfg; simpl; [reflexivity |].
  rewrite Hfg by lia. f_equal.
  replace (start + shift + 1) with (start + 1 + shift) by lia.
  apply IH. intros i Hi. apply Hfg. lia.
Qed.

(** X17.  A signal depends only on its candle and the [period] candles
    before it: when the [k] oldest candles are dropped, the detector
    returns the signals it returned before for the candles from index
    [period + k] on, unchanged and in the same order; only the signals of
    the indices [period .. period + k - 1] are lost. *)
Theorem oldest_candles_dropped (candles : list KlineData.t) (k : nat) (period : Z)
    (out : list BreakoutSignal.t) :
  (k <= List.length candles)%nat ->
  detectBreakout candles period = Return out ->
  detectBreakout (skipn k candles) period =
    Return (flat_map (pushed candles period)
              (indices (period + Z.of_nat k)
                       (Z.to_nat (length candles - Z.of_nat k - period)))) /\
  out = flat_map (pushed candles period)
          (indices period (Nat.min k (Z.to_nat (length candles - period))))
        ++ flat_map (pushed candles period)
             (indices (period + Z.of_nat k)
                      (Z.to_nat (length candles - Z.of_nat k - period))).
Proof.
  intros Hk Hout.
  assert (Hp : 0 <= period).
  { destruct (Z.lt_ge_cases period 0) as [Hneg | Hge]; [| exact Hge].
    rewrite detectBreakout_negative in Hout by exact Hneg. discriminate. }
  rewrite detectBreakout_scan in Hout by exact Hp. injection Hout as <-.
  rewrite detectBreakout_scan by exact Hp. rewrite length_skipn_Z by exact Hk.
  split.
  - f_equal. apply flat_map_indices_shift. intros i Hi. apply pushed_skipn; lia.
  - rewrite <- flat_map_app. f_equal.
    set (n := Z.to_nat (length candles - period)).
    replace n with (Nat.min k n + Z.to_nat (length candles - Z.of_nat k - period))%nat at 1
      by (unfold n; lia).
    rewrite indices_app. f_equal.
    destruct (Nat.le_gt_cases k n) as [Hle | Hgt].
    + rewrite Nat.min_l by exact Hle. reflexivity.
    + replace (Z.to_nat (length candles - Z.of_nat k - period)) with O by (unfold n in *; lia).
      reflexivity.
Qed.

Lemma oldest_candles_dropped_witness :
  detectBreakout (skipn 19 breakout_21) 1 =
    Return (flat_map (pushed breakout_21 1)
              (indices (1 + Z.of_nat 19)
                       (Z.to_nat (length breakout_21 - Z.of_nat 19 - 1)))) /\
  [BreakoutSignal.mk 20 Resistance 102.5 true] =
    flat_map (pushed breakout_21 1)
      (indices 1 (Nat.min 19 (Z.to_nat (length breakout_21 - 1))))
    ++ flat_map (pushed breakout_21 1)
         (indices (1 + Z.of_nat 19) (Z.to_nat (length breakout_21 - Z.of_nat 19 - 1))).
Proof.
  apply (oldest_candles_dropped breakout_21 19 1 [BreakoutSignal.mk 20 Resistance 102.5 true]).
  - vm_compute. lia.
  - vm_compute. reflexivity.
Defined.

Lemma flat_map_length_bound {B} (f : Z -> list B) (bound : nat) (l : list Z) :
  (forall i, (List.length (f i) <= bound)%nat) ->
  (List.length (flat_map f l) <= bound * List.length l)%nat.
Proof.
  intros Hf. induction l as [| i l IH]; simpl; [lia |].
  rewrite length_app. specialize (Hf i). lia.
Qed.

Lemma indices_length (n : nat) : forall start, List.length (indices start n) = n.
Proof. induction n as [| n IH]; intros start; simpl; [reflexivity | now rewrite IH]. Qed.

(** X18.  The detector returns at most two signals for each candle from
    index [period] on, so at most [2 * (length - period)] signals (none
    when there are no more candles than the window). *)
Theorem signal_count_bound (candles : list KlineData.t) (period : Z)
    (out : list BreakoutSignal.t) :
  detectBreakout candles period = Return out ->
  length out <= 2 * Z.max 0 (length candles - period).
Proof.
  intros Hout.
  assert (Hp : 0 <= period).
  { destruct (Z.lt_ge_cases period 0) as [Hneg | Hge]; [| exact Hge].
    rewrite detectBreakout_negative in Hout by exact Hneg. discriminate. }
  rewrite detectBreakout_scan in Hout by exact Hp. injection Hout as <-.
  pose proof (flat_map_length_bound (pushed candles period) 2
                (indices period (Z.to_nat (length candles - period)))) as H.
  rewrite indices_length in H. unfold length in *.
  assert (Hb : forall i, (List.length (pushed candles period i) <= 2)%nat).
  { intros i. destruct (pushed_shape candles period i) as (up & down & -> & Hup & Hdown).
    rewrite length_app.
    destruct Hup as [-> | [r [-> _]]], Hdown as [-> | [s [-> _]]]; simpl; lia. }
  specialize (H Hb). lia.
Qed.

Lemma signal_count_bound_witness :
  length [BreakoutSignal.mk 1 Resistance 50 true; BreakoutSignal.mk 1 Support 50 true]
  <= 2 * Z.max 0 (length crossed_2 - 1).
Proof.
  apply (signal_count_bound crossed_2 1).
  vm_compute. reflexivity.
Defined.
